(** * commatrix: the communication matrix, its diff and its firewall rules

    A shallow embedding of the Go packages [commatrix] (the assembly
    pipeline [New], the static catalogue selection [getStaticEntries],
    the custom entry loader [addFromFile]/[parseFormat] and the remote
    rule installer [ApplyFireWallRules]) and of the command's
    [buildMatrixDiff].

    Go strings are [string]; Go [int]s are [Z]; a Go function returning
    [(T, error)] returns a [result T]; runtime panics are a third outcome
    of [result].  Calls that leave the process (cluster API, debug pods,
    the file system) are functions supplied by the environment, and every
    such call is recorded in an event log threaded through the [Go] monad. *)

From Stdlib Require Import ZArith List String Ascii Bool Lia.
From Stdlib Require Import DecimalString.
Import ListNotations.

Local Open Scope string_scope.
Local Open Scope list_scope.

(** ** Package [types] *)

Module types.

(** Modelled from the spec: the declaration of [types.ComDetails] is not
    part of the sources at hand.  The fields are the ones of the spec's
    FlowRecord (section 3) under the names the callers use
    ([cd.NodeRole], [cd.Protocol], [cd.Port], [cd.Service]); the callers
    compare [Protocol], [NodeRole] and [Service] with string literals. *)
Record ComDetails : Type := mkComDetails {
  Direction : string;
  Protocol  : string;
  Port      : Z;
  Namespace : string;
  Service   : string;
  Pod       : string;
  Container : string;
  NodeRole  : string;
  Optional  : bool
}.

(** [type ComMatrix struct { Matrix []ComDetails }] *)
Record ComMatrix : Type := mkComMatrix { Matrix : list ComDetails }.

(** Modelled from the spec: [Equals] is not part of the sources at hand.
    Section 4.1: true iff the identity tuples (direction, protocol, port,
    namespace, serviceName, podName, containerName, nodeRole) match;
    [Optional] is ignored. *)
Definition Equals (a b : ComDetails) : bool :=
  String.eqb (Direction a) (Direction b) &&
  String.eqb (Protocol a) (Protocol b) &&
  Z.eqb (Port a) (Port b) &&
  String.eqb (Namespace a) (Namespace b) &&
  String.eqb (Service a) (Service b) &&
  String.eqb (Pod a) (Pod b) &&
  String.eqb (Container a) (Container b) &&
  String.eqb (NodeRole a) (NodeRole b).

(** Modelled from the spec: the method [(m ComMatrix) Contains(cd)] is not
    part of the sources at hand.  Section 4.1: true iff any element of
    the matrix is [Equals] to the record. *)
Definition Contains (m : ComMatrix) (cd : ComDetails) : bool :=
  existsb (fun x => Equals x cd) (Matrix m).

(** Modelled from the spec: [CleanComDetails] is not part of the sources
    at hand.  Section 4.1 (Deduplicate): the records in first-seen order,
    later duplicates (by identity tuple) dropped.  Written as the loop
    that keeps the records seen so far. *)
Definition CleanComDetails_step (res : list ComDetails) (item : ComDetails)
  : list ComDetails :=
  if existsb (fun x => Equals x item) res then res else res ++ [item].

Definition CleanComDetails (outPuts : list ComDetails) : list ComDetails :=
  fold_left CleanComDetails_step outPuts [].

(** The first record of a given identity in a list: the one that
    survives a collision. *)
Definition first_of (r : ComDetails) (l : list ComDetails) : option ComDetails :=
  find (fun x => Equals x r) l.

(** [s] is [l] with some of its elements left out, the others in order. *)
Inductive subsequence {A : Type} : list A -> list A -> Prop :=
| subsequence_nil : subsequence [] []
| subsequence_skip (x : A) (s l : list A) :
  subsequence s l -> subsequence s (x :: l)
| subsequence_keep (x : A) (s l : list A) :
  subsequence s l -> subsequence (x :: s) (x :: l).

(** No two records of one identity. *)
Inductive distinct_identities : list ComDetails -> Prop :=
  | distinct_nil : distinct_identities []
  | distinct_snoc (l : list ComDetails) (x : ComDetails) :
      distinct_identities l ->
      existsb (fun y => Equals y x) l = false ->
      distinct_identities (l ++ [x]).

(** Modelled from the spec: [types.Format] and the tokens [FormatJSON],
    [FormatYAML] and [FormatCSV] are not part of the sources at hand.
    Section 4.3: the three recognized strings are "json", "yaml", "csv". *)
Inductive Format : Type := JSON | YAML | CSV | FormatErr.

Definition FormatJSON : string := "json".
Definition FormatYAML : string := "yaml".
Definition FormatCSV  : string := "csv".

End types.

Import types.

(** ** Outcomes and the event log *)

(** Go errors are carried by their message. *)
Definition error : Type := string.

Inductive result (A : Type) : Type :=
| Ok (a : A)
| Err (e : error)
| Panic (msg : string).

Arguments Ok {A} a.
Arguments Err {A} e%_string.
Arguments Panic {A} msg%_string.

(** What the process does to the outside world. *)
Inductive Event : Type :=
| EvClientNew (kubeconfigPath : string)
| EvGetIngressEndpointSlicesInfo
| EvToComDetails
| EvNodesList
| EvFileOpen (path : string)
| EvFileReadAll (path : string)
| EvFileClose (path : string)
| EvDebugNew (nodeName : string)
| EvDebugExec (nodeName : string) (command : string)
| EvDebugClean (nodeName : string).

Definition is_file_event (ev : Event) : bool :=
  match ev with
  | EvFileOpen _ | EvFileReadAll _ | EvFileClose _ => true
  | _ => false
  end.

(** A computation reads and extends the log of events. *)
Definition Go (A : Type) : Type := list Event -> list Event * result A.

Definition ret {A} (a : A) : Go A := fun log => (log, Ok a).

Definition bind {A B} (c : Go A) (k : A -> Go B) : Go B :=
  fun log =>
    match c log with
    | (log', Ok a) => k a log'
    | (log', Err e) => (log', Err e)
    | (log', Panic msg) => (log', Panic msg)
    end.

(** An external call: log the event, then hand over what it answered. *)
Definition call {A} (ev : Event) (answer : result A) : Go A :=
  fun log => (log ++ [ev], answer).

(** A computation without effect on the outside world. *)
Definition pure {A} (r : result A) : Go A := fun log => (log, r).

(** [if err != nil { panic(err) }] *)
Definition panic_on_err {A} (c : Go A) : Go A :=
  fun log =>
    match c log with
    | (log', Err e) => (log', Panic e)
    | r => r
    end.

(** [if err != nil { return nil, f(err) }] *)
Definition on_err {A} (c : Go A) (f : error -> error) : Go A :=
  fun log =>
    match c log with
    | (log', Err e) => (log', Err (f e))
    | r => r
    end.

(** [defer g()]: [g] runs when the body is left, whatever its outcome. *)
Definition defer {A} (cleanup : Go unit) (body : Go A) : Go A :=
  fun log =>
    match body log with
    | (log', r) =>
        match cleanup log' with
        | (log'', Panic msg) => (log'', Panic msg)
        | (log'', _) => (log'', r)
        end
    end.

Declare Scope go_scope.
Delimit Scope go_scope with go.
Notation "x <- c ;; k" := (bind c (fun x => k))
  (at level 61, c at next level, right associativity) : go_scope.

(** ** Formatting helpers of the Go runtime *)

(** [fmt.Sprint] of an integer: its decimal digits, with a leading minus
    sign when negative. *)
Definition Sprint (n : Z) : string := NilZero.string_of_int (Z.to_int n).

(** [s[:hi]] on a string: the runtime panics unless [0 <= hi <= len(s)]. *)
Definition slice_to (s : string) (hi : Z) : result string :=
  let len := Z.of_nat (String.length s) in
  if (hi <? 0)%Z then
    Panic ("runtime error: slice bounds out of range [:" ++ Sprint hi ++ "]")
  else if (len <? hi)%Z then
    Panic ("runtime error: slice bounds out of range [:" ++ Sprint hi
           ++ "] with length " ++ Sprint len)
  else Ok (substring 0 (Z.to_nat hi) s).

(** [golang.org/x/sync/errgroup]: every task started with [g.Go] runs to its
    end, [g.Wait] hands back the first error.  A panic in a task takes the
    process down.  The tasks are run one after the other, in the order in
    which they were started; their interleaving is not represented. *)
Fixpoint errgroup_Wait (tasks : list (Go unit)) : Go unit :=
  fun log =>
    match tasks with
    | [] => (log, Ok tt)
    | t :: ts =>
        match t log with
        | (log', Panic msg) => (log', Panic msg)
        | (log', r) =>
            match errgroup_Wait ts log' with
            | (log'', Panic msg) => (log'', Panic msg)
            | (log'', r') =>
                (log'', match r with Err e => Err e | _ => r' end)
            end
        end
    end.

(** ** Package [commatrix] *)

Module commatrix.

(** [type Env int] with [Baremetal Env = iota] and [AWS]. *)
Definition Env : Type := Z.
Definition Baremetal : Env := 0%Z.
Definition AWS : Env := 1%Z.

(** [type Deployment int] with [SNO Deployment = iota] and [MNO]. *)
Definition Deployment : Type := Z.
Definition SNO : Deployment := 0%Z.
Definition MNO : Deployment := 1%Z.

(** [parseFormat]: a case-sensitive comparison with the three tokens. *)
Definition parseFormat (format : string) : result Format :=
  if String.eqb format FormatJSON then Ok JSON
  else if String.eqb format FormatYAML then Ok YAML
  else if String.eqb format FormatCSV then Ok CSV
  else Err ("failed to parse format: " ++ format
            ++ ". options are: (json/yaml/csv)").

(** The package-level tables of the static catalogue; their contents are
    not part of the sources at hand and nothing below depends on them. *)
Record Catalogue : Type := mkCatalogue {
  baremetalStaticEntriesMaster : list ComDetails;
  baremetalStaticEntriesWorker : list ComDetails;
  awsCloudStaticEntriesMaster : list ComDetails;
  awsCloudStaticEntriesWorker : list ComDetails;
  generalStaticEntriesMaster : list ComDetails;
  generalStaticEntriesWorker : list ComDetails;
  MNOStaticEntries : list ComDetails
}.

(** The collaborators: the cluster client, the endpoint-slice
    translation, the file system, the decoders and the debug pods are
    outside the sources at hand; each is a function of the environment
    answering a [result]. *)
Record World : Type := mkWorld {
  ClientSet : Type;
  EndpointSlicesInfo : Type;
  File : Type;
  Node : Type;
  DebugPod : Type;
  client_New : string -> result ClientSet;
  GetIngressEndpointSlicesInfo : ClientSet -> result (list EndpointSlicesInfo);
  ToComDetails : ClientSet -> list EndpointSlicesInfo -> result (list ComDetails);
  filepath_Clean : string -> string;
  os_Open : string -> result File;
  io_ReadAll : File -> result string;
  File_Close : File -> result unit;
  json_Unmarshal : string -> result (list ComDetails);
  yaml_Unmarshal : string -> result (list ComDetails);
  gocsv_UnmarshalBytes : string -> result (list ComDetails);
  Nodes_List : ClientSet -> result (list Node);
  Node_Name : Node -> string;
  GetRole : Node -> string;
  DefaultDebugNamespace : string;
  DefaultDebugPodImage : string;
  debug_New : ClientSet -> string -> string -> string -> result DebugPod;
  DebugPod_Exec : DebugPod -> string -> result string;
  DebugPod_Clean : DebugPod -> result unit
}.

Section Pipeline.

Variable tables : Catalogue.
Variable w : World.

(** The [switch e] of [getStaticEntries]; a [break] leaves the switch. *)
Definition getStaticEntries_switch (e : Env) (d : Deployment)
           (comDetails : list ComDetails) : result (list ComDetails) :=
  if (e =? Baremetal)%Z then
    let comDetails := comDetails ++ (baremetalStaticEntriesMaster tables) in
    if (d =? SNO)%Z then Ok comDetails
    else Ok (comDetails ++ (baremetalStaticEntriesWorker tables))
  else if (e =? AWS)%Z then
    let comDetails := comDetails ++ (awsCloudStaticEntriesMaster tables) in
    if (d =? SNO)%Z then Ok comDetails
    else Ok (comDetails ++ (awsCloudStaticEntriesWorker tables))
  else Err "invalid value for cluster environment".

Definition getStaticEntries (e : Env) (d : Deployment)
  : result (list ComDetails) :=
  let comDetails := [] in
  match getStaticEntries_switch e d comDetails with
  | Ok comDetails =>
      let comDetails := comDetails ++ (generalStaticEntriesMaster tables) in
      if (d =? SNO)%Z then Ok comDetails
      else
        let comDetails := comDetails ++ (MNOStaticEntries tables) in
        let comDetails := comDetails ++ (generalStaticEntriesWorker tables) in
        Ok comDetails
  | Err err => Err err
  | Panic msg => Panic msg
  end.

Local Open Scope go_scope.

(** [addFromFile]: open, read everything, decode under [format]. *)
Definition decode (format : Format) (raw : string)
  : result (list ComDetails) :=
  let unmarshal_err (r : result (list ComDetails)) :=
    match r with
    | Err err => Err ("failed to unmarshal custom entries file: " ++ err)
    | r => r
    end in
  match format with
  | JSON => unmarshal_err (json_Unmarshal w raw)
  | YAML => unmarshal_err (yaml_Unmarshal w raw)
  | CSV => unmarshal_err (gocsv_UnmarshalBytes w raw)
  | FormatErr => Err "invalid value for format must be (json,yaml,csv)"
  end.

Definition addFromFile (fp : string) (format : Format)
  : Go (list ComDetails) :=
  f <- on_err (call (EvFileOpen fp) (os_Open w (filepath_Clean w fp)))
              (fun err => "failed to open file " ++ fp ++ ": " ++ err)%string ;;
  defer (call (EvFileClose fp) (File_Close w f))
    (raw <- on_err (call (EvFileReadAll fp) (io_ReadAll w f))
              (fun err => "failed to read file " ++ fp ++ ": " ++ err)%string ;;
     pure (decode format raw)).

(** [New]: cluster-derived entries, then the static catalogue, then the
    custom entries when a path is given; deduplicated at the end. *)
Definition New (kubeconfigPath customEntriesPath customEntriesFormat : string)
           (e : Env) (d : Deployment) : Go ComMatrix :=
  let res := [] in
  cs <- on_err (call (EvClientNew kubeconfigPath) (client_New w kubeconfigPath))
          (fun err => "failed creating the k8s client: " ++ err)%string ;;
  epSlicesInfo <-
    on_err (call EvGetIngressEndpointSlicesInfo (GetIngressEndpointSlicesInfo w cs))
      (fun err => "failed getting endpointslices: " ++ err)%string ;;
  epSliceComDetails <- call EvToComDetails (ToComDetails w cs epSlicesInfo) ;;
  let res := res ++ epSliceComDetails in
  staticEntries <-
    on_err (pure (getStaticEntries e d))
      (fun err => "failed adding static entries: " ++ err)%string ;;
  let res := res ++ staticEntries in
  res <-
    (if String.eqb customEntriesPath "" then ret res
     else
       inputFormat <-
         on_err (pure (parseFormat customEntriesFormat))
           (fun err => "failed adding custom entries: " ++ err)%string ;;
       customComDetails <-
         on_err (addFromFile customEntriesPath inputFormat)
           (fun err => "failed adding custom entries: " ++ err)%string ;;
       ret (res ++ customComDetails)) ;;
  let cleanedComDetails := CleanComDetails res in
  ret (mkComMatrix cleanedComDetails).

(** The error with which [New] refuses a format token that
    [parseFormat] does not recognize. *)
Definition UnsupportedFormat (customEntriesFormat : string) : error :=
  ("failed adding custom entries: failed to parse format: "
   ++ customEntriesFormat ++ ". options are: (json/yaml/csv)")%string.

(** The calls to the cluster that [New] makes when they all succeed. *)
Definition cluster_events (kubeconfigPath : string) : list Event :=
  [EvClientNew kubeconfigPath; EvGetIngressEndpointSlicesInfo; EvToComDetails].

(** *** [ApplyFireWallRules] *)

(** One turn of the loop over [m.Matrix] that builds the two port
    strings: a record of another role is skipped ([continue]), a record
    of the role adds its port, followed by ", ", to the string of its
    protocol. *)
Definition collectPorts_step (role : string) (acc : string * string)
           (cd : ComDetails) : string * string :=
  let (tcp, udp) := acc in
  if negb (String.eqb (NodeRole cd) role) then (tcp, udp)
  else
    let tcp := if String.eqb (Protocol cd) "TCP"
               then (tcp ++ (Sprint (Port cd) ++ ", "))%string else tcp in
    let udp := if String.eqb (Protocol cd) "UDP"
               then (udp ++ (Sprint (Port cd) ++ ", "))%string else udp in
    (tcp, udp).

Definition collectPorts (m : ComMatrix) (role : string) : string * string :=
  fold_left (collectPorts_step role) (Matrix m) (""%string, ""%string).

(** The ports, in the order of the matrix, of the records of [role] whose
protocol is [protocol]: one entry per record. *)
Definition portsOf (protocol : string) (m : ComMatrix) (role : string) : list Z :=
  map Port
      (filter (fun cd => String.eqb (NodeRole cd) role
                         && String.eqb (Protocol cd) protocol)
              (Matrix m)).

(** The text of a list of ports: each port is followed by ", ". *)
Definition joinPorts (ports : list Z) : string :=
  fold_right (fun port text => (Sprint port ++ ", " ++ text)%string)
             ""%string ports.

(** The task started for one node of the role. *)
Definition nodeTask (cs : ClientSet w) (node : Node w)
           (tcpPorts udpPorts : string) : Go unit :=
  let name := Node_Name w node in
  debugPod <- call (EvDebugNew name)
                (debug_New w cs name (DefaultDebugNamespace w)
                   (DefaultDebugPodImage w)) ;;
  let Exec (command : string) : Go string :=
    call (EvDebugExec name command) (DebugPod_Exec w debugPod command) in
  defer (call (EvDebugClean name) (DebugPod_Clean w debugPod))
    (_ <- Exec "sudo nft add chain ip filter FIREWALL" ;;
     _ <- Exec "sudo nft add rule ip filter FIREWALL iif lo accept" ;;
     _ <- Exec "sudo nft add rule ip filter FIREWALL ct state established,related accept" ;;
     _ <- Exec "sudo nft add rule ip filter FIREWALL tcp dport { 22 } accept" ;;
     _ <- Exec "sudo nft add rule ip filter FIREWALL udp dport { 67, 68 }  accept" ;;
     _ <- Exec "sudo nft add rule ip filter FIREWALL ip protocol icmp accept" ;;
     _ <- Exec ("sudo nft add rule ip filter FIREWALL tcp dport { "
                ++ tcpPorts ++ " } accept")%string ;;
     _ <- Exec ("sudo nft add rule ip filter FIREWALL udp dport { "
                ++ udpPorts ++ " } accept")%string ;;
     _ <- Exec "sudo nft add rule ip filter FIREWALL log prefix firewall drop" ;;
     _ <- Exec "sudo nft add rule ip filter INPUT jump FIREWALL" ;;
     ret tt).

(** The second half of [ApplyFireWallRules]: list the nodes, start a task
    for every node of the role, wait for them. *)
Definition applyToNodes (cs : ClientSet w) (role tcpPorts udpPorts : string)
  : Go unit :=
  nodesList <- panic_on_err (call EvNodesList (Nodes_List w cs)) ;;
  errgroup_Wait
    (map (fun node => nodeTask cs node tcpPorts udpPorts)
         (filter (fun node => String.eqb (GetRole w node) role) nodesList)).

Definition ApplyFireWallRules (cs : ClientSet w) (m : ComMatrix)
           (role : string) : Go unit :=
  let (tcp, udp) := collectPorts m role in
  (* Remove the trailing ", " substring *)
  tcpPorts <- pure (slice_to tcp (Z.of_nat (String.length tcp) - 2)) ;;
  udpPorts <- pure (slice_to udp (Z.of_nat (String.length udp) - 2)) ;;
  applyToNodes cs role tcpPorts udpPorts.

(** The ten commands of a node task, in the order in which they are
    sent. *)
Definition firewallCommands (tcpPorts udpPorts : string) : list string :=
  ["sudo nft add chain ip filter FIREWALL";
   "sudo nft add rule ip filter FIREWALL iif lo accept";
   "sudo nft add rule ip filter FIREWALL ct state established,related accept";
   "sudo nft add rule ip filter FIREWALL tcp dport { 22 } accept";
   "sudo nft add rule ip filter FIREWALL udp dport { 67, 68 }  accept";
   "sudo nft add rule ip filter FIREWALL ip protocol icmp accept";
   ("sudo nft add rule ip filter FIREWALL tcp dport { "
      ++ tcpPorts ++ " } accept");
   ("sudo nft add rule ip filter FIREWALL udp dport { "
      ++ udpPorts ++ " } accept");
   "sudo nft add rule ip filter FIREWALL log prefix firewall drop";
   "sudo nft add rule ip filter INPUT jump FIREWALL"]%string.

(** Commands sent one after the other, each guarded by
    [if err != nil { return err }]. *)
Fixpoint execAll (Exec : string -> Go string) (commands : list string)
  : Go unit :=
  match commands with
  | [] => ret tt
  | command :: rest => _ <- Exec command ;; execAll Exec rest
  end.

End Pipeline.

(** The node that an event of a debug pod concerns. *)
Definition event_node (ev : Event) : option string :=
  match ev with
  | EvDebugNew nodeName | EvDebugExec nodeName _ | EvDebugClean nodeName =>
      Some nodeName
  | _ => None
  end.

End commatrix.

(** ** The command: the diff of the declared and the observed matrix *)

Module cmd.

(** The line feed that ends every line of the diff. *)
Definition nl : string := String "010"%char EmptyString.

(** How a line of the diff is marked. *)
Inductive Mark : Type := Unmarked | Plus | Minus.

Section Diff.

(** [consts.CSVHeaders] and the [%s] rendering of a record are outside
    the sources at hand. *)
Variable CSVHeaders : string.
Variable ComDetails_String : ComDetails -> string.

(** [fmt.Sprintf("%s\n", cd)], [fmt.Sprintf("+ %s\n", cd)] and
    [fmt.Sprintf("- %s\n", cd)]. *)
Definition line (mk : Mark) (cd : ComDetails) : string :=
  match mk with
  | Unmarked => ComDetails_String cd ++ nl
  | Plus => "+ " ++ ComDetails_String cd ++ nl
  | Minus => "- " ++ ComDetails_String cd ++ nl
  end%string.

(** The body of the loop over [mat1.Matrix]. *)
Definition declared_step (mat2 : ComMatrix) (diff : string)
           (cd : ComDetails) : string :=
  if Contains mat2 cd then (diff ++ line Unmarked cd)%string
  else (diff ++ line Plus cd)%string.

(** The body of the loop over [mat2.Matrix]: "rpc.statd" ports are
    skipped, these are randomly open ports on the node. *)
Definition observed_step (mat1 : ComMatrix) (diff : string)
           (cd : ComDetails) : string :=
  if String.eqb (Service cd) "rpc.statd" then diff
  else if negb (Contains mat1 cd) then (diff ++ line Minus cd)%string
  else diff.

Definition buildMatrixDiff (mat1 mat2 : ComMatrix) : string :=
  let diff := (CSVHeaders ++ nl)%string in
  let diff := fold_left (declared_step mat2) (Matrix mat1) diff in
  let diff := fold_left (observed_step mat1) (Matrix mat2) diff in
  diff.

(** The same two loops, keeping every line that is written as the pair
    of its mark and its record instead of its text. *)
Definition declared_entry (mat2 : ComMatrix)
           (acc : list (Mark * ComDetails)) (cd : ComDetails)
  : list (Mark * ComDetails) :=
  if Contains mat2 cd then acc ++ [(Unmarked, cd)]
  else acc ++ [(Plus, cd)].

Definition observed_entry (mat1 : ComMatrix)
           (acc : list (Mark * ComDetails)) (cd : ComDetails)
  : list (Mark * ComDetails) :=
  if String.eqb (Service cd) "rpc.statd" then acc
  else if negb (Contains mat1 cd) then acc ++ [(Minus, cd)]
  else acc.

Definition diffEntries (mat1 mat2 : ComMatrix) : list (Mark * ComDetails) :=
  let acc := fold_left (declared_entry mat2) (Matrix mat1) [] in
  fold_left (observed_entry mat1) (Matrix mat2) acc.

(** The text of a sequence of lines. *)
Definition render (entries : list (Mark * ComDetails)) : string :=
  fold_right (fun en text => (line (fst en) (snd en) ++ text)%string)
             ""%string entries.

(** The diff as section 4.6 words it: a header line; one line per record
    of [mat1], in order, unprefixed if [mat2] contains it and prefixed
    with [+] otherwise; one line prefixed with [-] per record of
    [mat2], in order, that is not the [rpc.statd] exception and that
    [mat1] does not contain. *)
Definition spec_declared_lines (mat1 mat2 : ComMatrix)
  : list (Mark * ComDetails) :=
  map (fun cd => (if Contains mat2 cd then Unmarked else Plus, cd))
      (Matrix mat1).

Definition spec_observed_lines (mat1 mat2 : ComMatrix)
  : list (Mark * ComDetails) :=
  map (fun cd => (Minus, cd))
      (filter (fun cd => negb (String.eqb (Service cd) "rpc.statd")
                         && negb (Contains mat1 cd))
              (Matrix mat2)).

Definition spec_diff (mat1 mat2 : ComMatrix) : string :=
  (CSVHeaders ++ nl
   ++ render (spec_declared_lines mat1 mat2 ++ spec_observed_lines mat1 mat2))%string.

(** The loops that an earlier [main] carried inline ([cmd/main.go] as it
    stood before [buildMatrixDiff] was split off; it still calls [New]
    with four arguments): no header, no exception. *)
Definition inline_observed_step (mat : ComMatrix) (diff : string)
           (cd : ComDetails) : string :=
  if negb (Contains mat cd) then (diff ++ line Minus cd)%string else diff.

Definition inline_diff (mat ssComMat : ComMatrix) : string :=
  let diff := ""%string in
  let diff := fold_left (declared_step ssComMat) (Matrix mat) diff in
  let diff := fold_left (inline_observed_step mat) (Matrix ssComMat) diff in
  diff.

(** The inline loops, keeping the lines as pairs. *)
Definition inline_observed_entry (mat : ComMatrix)
           (acc : list (Mark * ComDetails)) (cd : ComDetails)
  : list (Mark * ComDetails) :=
  if negb (Contains mat cd) then acc ++ [(Minus, cd)] else acc.

Definition inline_entries (mat ssComMat : ComMatrix)
  : list (Mark * ComDetails) :=
  let acc := fold_left (declared_entry ssComMat) (Matrix mat) [] in
  fold_left (inline_observed_entry mat) (Matrix ssComMat) acc.

(** Whether a line is the [-] line of an "rpc.statd" record. *)
Definition is_statd_minus (en : Mark * ComDetails) : bool :=
  match fst en with
  | Minus => String.eqb (Service (snd en)) "rpc.statd"
  | _ => false
  end.

End Diff.

(** *** The head of [main]: from the flags to the declared matrix *)

(** The values of the command line flags after [flag.Parse()]. *)
Record Flags : Type := mkFlags {
  destDir : string;
  format : string;
  envStr : string;
  deploymentStr : string;
  customEntriesPath : string;
  customEntriesFormat : string
}.

(** The three values of [printFn]. *)
Inductive Printer : Type := ToJSON | ToCSV | ToYAML.

(** [panic(msg)] *)
Definition go_panic {A : Type} (msg : string) : Go A :=
  fun log => (log, Panic msg).

(** [if err != nil { panic(f(err)) }] *)
Definition panic_with {A : Type} (c : Go A) (f : error -> string) : Go A :=
  fun log =>
    match c log with
    | (log', Err e) => (log', Panic (f e))
    | r => r
    end.

Section Main.

Import commatrix.

Variable tables : Catalogue.
Variable w : World.

Local Open Scope go_scope.

(** [main] up to the point where [mat] is at hand: the four switches on
    the flags and on [KUBECONFIG] (the answer of [os.LookupEnv]), the test
    on the custom entries, and the call of [commatrix.New]. *)
Definition main_declared_matrix (flags : Flags) (KUBECONFIG : option string)
  : Go (Printer * ComMatrix) :=
  printFn <-
    (if String.eqb (format flags) "json" then ret ToJSON
     else if String.eqb (format flags) "csv" then ret ToCSV
     else if String.eqb (format flags) "yaml" then ret ToYAML
     else go_panic ("invalid format: " ++ format flags
                    ++ ". Please specify json, csv, or yaml.")%string) ;;
  kubeconfig <-
    match KUBECONFIG with
    | Some kubeconfig => ret kubeconfig
    | None => go_panic "must set the KUBECONFIG environment variable"
    end ;;
  env <-
    (if String.eqb (envStr flags) "baremetal" then ret Baremetal
     else if String.eqb (envStr flags) "aws" then ret AWS
     else go_panic ("invalid cluster environment: " ++ envStr flags)%string) ;;
  deployment <-
    (if String.eqb (deploymentStr flags) "mno" then ret MNO
     else if String.eqb (deploymentStr flags) "sno" then ret SNO
     else go_panic ("invalid deployment type: " ++ deploymentStr flags)%string) ;;
  _ <- (if negb (String.eqb (customEntriesPath flags) "")
           && String.eqb (customEntriesFormat flags) ""
        then go_panic "error, variable customEntriesFormat is not set"
        else ret tt) ;;
  mat <- panic_with
           (New tables w kubeconfig (customEntriesPath flags)
                (customEntriesFormat flags) env deployment)
           (fun err => "failed to create the communication matrix: " ++ err)%string ;;
  ret (printFn, mat).

End Main.

End cmd.

(** ** Concrete records, matrices and environments *)

Module Scenario.

Import commatrix.

Definition flow (protocol : string) (port : Z) (service role : string)
           (optional : bool) : ComDetails :=
  mkComDetails "Ingress" protocol port "" service "" "" role optional.

Definition sshd : ComDetails := flow "TCP" 22 "sshd" "master" false.
Definition statd : ComDetails := flow "UDP" 111 "rpc.statd" "master" false.
Definition dhcp : ComDetails := flow "UDP" 68 "dhcp" "master" false.
Definition sctp : ComDetails := flow "SCTP" 38412 "amf" "master" false.
Definition node_exporter : ComDetails :=
  flow "TCP" 9100 "node-exporter" "worker" false.
Definition kube_rbac_proxy : ComDetails :=
  flow "TCP" 9100 "kube-rbac-proxy" "worker" false.
Definition ovn_geneve : ComDetails := flow "UDP" 6081 "ovn-kubernetes" "worker" false.

(** Two identities, each carried by two records that are told apart by
    [Optional] and by where they come from. *)
Definition api_cluster : ComDetails := flow "TCP" 6443 "kube-apiserver" "master" false.
Definition api_static : ComDetails := flow "TCP" 6443 "kube-apiserver" "master" true.
Definition etcd_static : ComDetails := flow "TCP" 2379 "etcd" "master" false.
Definition etcd_custom : ComDetails := flow "TCP" 2379 "etcd" "master" true.

(** A rendering of a record in the way of a CSV row. *)
Definition csv_row (cd : ComDetails) : string :=
  (Direction cd ++ "," ++ Protocol cd ++ "," ++ Sprint (Port cd) ++ ","
   ++ Namespace cd ++ "," ++ Service cd ++ "," ++ Pod cd ++ ","
   ++ Container cd ++ "," ++ NodeRole cd ++ ","
   ++ (if Optional cd then "true" else "false"))%string.

Definition csv_headers : string :=
  "direction,protocol,port,namespace,service,pod,container,nodeRole,optional".

Definition tables : Catalogue :=
  {| baremetalStaticEntriesMaster := [api_static; etcd_static];
     baremetalStaticEntriesWorker := [node_exporter];
     awsCloudStaticEntriesMaster := [api_static];
     awsCloudStaticEntriesWorker := [kube_rbac_proxy];
     generalStaticEntriesMaster := [sshd];
     generalStaticEntriesWorker := [ovn_geneve];
     MNOStaticEntries := [dhcp] |}.

(** An environment whose cluster answers [client] to the creation of
    the client and [cluster] to the translation of the endpoint slices,
    and whose only file, whatever its path, holds [custom] under every
    encoding.  There is one node, a master. *)
Definition world (client : result unit) (cluster custom : list ComDetails)
  : World :=
  {| ClientSet := unit;
     EndpointSlicesInfo := unit;
     File := unit;
     Node := string;
     DebugPod := string;
     client_New := fun _ => client;
     GetIngressEndpointSlicesInfo := fun _ => Ok [tt];
     ToComDetails := fun _ _ => Ok cluster;
     filepath_Clean := fun fp => fp;
     os_Open := fun _ => Ok tt;
     io_ReadAll := fun _ => Ok "raw"%string;
     File_Close := fun _ => Ok tt;
     json_Unmarshal := fun _ => Ok custom;
     yaml_Unmarshal := fun _ => Ok custom;
     gocsv_UnmarshalBytes := fun _ => Ok custom;
     Nodes_List := fun _ => Ok ["master-0"%string];
     Node_Name := fun n => n;
     GetRole := fun _ => "master"%string;
     DefaultDebugNamespace := "openshift-commatrix-debug";
     DefaultDebugPodImage := "debug-image";
     debug_New := fun _ name _ _ => Ok name;
     DebugPod_Exec := fun _ _ => Ok ""%string;
     DebugPod_Clean := fun _ => Ok tt |}.

Definition up : World := world (Ok tt) [api_cluster] [etcd_custom].
Definition down : World :=
  world (Err "connection refused") [api_cluster] [etcd_custom].

(** The matrix that [New] assembles in [up] from the custom file
    "custom.json" for a multi-node cluster on bare metal. *)
Definition declared : ComMatrix :=
  mkComMatrix [api_cluster; etcd_static; node_exporter; sshd; dhcp; ovn_geneve].

Definition custom_events : list Event :=
  [EvFileOpen "custom.json"; EvFileReadAll "custom.json";
   EvFileClose "custom.json"].

(** Two records of the master role on TCP port 6443, told apart by their
    service, and one on a UDP port. *)
Definition balancer : ComDetails := flow "TCP" 6443 "haproxy" "master" false.

Definition control_plane : ComMatrix :=
  mkComMatrix [api_cluster; balancer; dhcp].

(** A cluster of three nodes, each a pair of a name and a role, in which
    the debug pods answer [exec] to the commands sent to them; the custom
    file opens with [opened] and reads as [read]. *)
Definition fleet (nodes : result (list (string * string)))
           (exec : string -> string -> result string)
           (opened : result unit) (read : result string) : World :=
  {| ClientSet := unit;
     EndpointSlicesInfo := unit;
     File := unit;
     Node := string * string;
     DebugPod := string;
     client_New := fun _ => Ok tt;
     GetIngressEndpointSlicesInfo := fun _ => Ok [tt];
     ToComDetails := fun _ _ => Ok [api_cluster];
     filepath_Clean := fun fp => fp;
     os_Open := fun _ => opened;
     io_ReadAll := fun _ => read;
     File_Close := fun _ => Ok tt;
     json_Unmarshal := fun _ => Ok [etcd_custom];
     yaml_Unmarshal := fun _ => Err "yaml: line 1: did not find expected key";
     gocsv_UnmarshalBytes := fun _ => Ok [];
     Nodes_List := fun _ => nodes;
     Node_Name := fst;
     GetRole := snd;
     DefaultDebugNamespace := "openshift-commatrix-debug";
     DefaultDebugPodImage := "debug-image";
     debug_New := fun _ name _ _ => Ok name;
     DebugPod_Exec := exec;
     DebugPod_Clean := fun _ => Ok tt |}.

Definition three_nodes : list (string * string) :=
  [("master-0", "master"); ("worker-0", "worker"); ("master-1", "master")]%string.

(** Every command succeeds. *)
Definition obedient : string -> string -> result string :=
  fun _ _ => Ok ""%string.

(** The chain cannot be created on "master-0". *)
Definition stubborn : string -> string -> result string :=
  fun pod command =>
    if String.eqb pod "master-0"
       && String.eqb command "sudo nft add chain ip filter FIREWALL"
    then Err "exit status 1" else Ok ""%string.

Definition calm : World := fleet (Ok three_nodes) obedient (Ok tt) (Ok "raw"%string).
Definition rough : World := fleet (Ok three_nodes) stubborn (Ok tt) (Ok "raw"%string).
Definition blind : World :=
  fleet (Err "nodes is forbidden") obedient (Ok tt) (Ok "raw"%string).
Definition locked : World :=
  fleet (Ok three_nodes) obedient (Err "permission denied") (Ok "raw"%string).

(** A matrix with a TCP and a UDP port for the masters. *)
Definition masters : ComMatrix := mkComMatrix [sshd; dhcp; node_exporter; sctp].

Definition flags (format env deployment path customFormat : string) : cmd.Flags :=
  cmd.mkFlags "communication-matrix" format env deployment path customFormat.

End Scenario.

(** * Properties *)

(** ** Identity of records *)

Section EqualsFacts.

Lemma Equals_spec (a b : ComDetails) :
  Equals a b = true <->
  Direction a = Direction b /\ Protocol a = Protocol b /\ Port a = Port b /\
  Namespace a = Namespace b /\ Service a = Service b /\ Pod a = Pod b /\
  Container a = Container b /\ NodeRole a = NodeRole b.
Proof.
  unfold Equals.
  repeat rewrite andb_true_iff.
  repeat rewrite String.eqb_eq.
  rewrite Z.eqb_eq.
  tauto.
Qed.

Lemma Equals_refl (a : ComDetails) : Equals a a = true.
Proof. apply Equals_spec. repeat split. Qed.

Lemma Equals_sym (a b : ComDetails) : Equals a b = Equals b a.
Proof.
  destruct (Equals a b) eqn:Hab, (Equals b a) eqn:Hba; trivial.
  - apply Equals_spec in Hab.
    assert (Equals b a = true) as H by (apply Equals_spec; intuition congruence).
    congruence.
  - apply Equals_spec in Hba.
    assert (Equals a b = true) as H by (apply Equals_spec; intuition congruence).
    congruence.
Qed.

Lemma Equals_trans (a b c : ComDetails) :
  Equals a b = true -> Equals b c = true -> Equals a c = true.
Proof.
  rewrite !Equals_spec. intuition congruence.
Qed.

(** [Optional] is no part of the identity. *)
Lemma Equals_ignores_Optional (a : ComDetails) (o : bool) :
  Equals a (mkComDetails (Direction a) (Protocol a) (Port a) (Namespace a)
              (Service a) (Pod a) (Container a) (NodeRole a) o) = true.
Proof. apply Equals_spec. repeat split. Qed.

Lemma Equals_Service (a b : ComDetails) :
  Equals a b = true -> Service a = Service b.
Proof. rewrite Equals_spec. tauto. Qed.

Lemma Contains_true_iff (m : ComMatrix) (cd : ComDetails) :
  Contains m cd = true <-> exists x, In x (Matrix m) /\ Equals x cd = true.
Proof. unfold Contains. apply existsb_exists. Qed.

Lemma Contains_false_iff (m : ComMatrix) (cd : ComDetails) :
  Contains m cd = false <-> forall x, In x (Matrix m) -> Equals x cd = false.
Proof.
  unfold Contains.
  rewrite <- not_true_iff_false, existsb_exists. split.
  - intros H x Hx. destruct (Equals x cd) eqn:E; trivial.
    exfalso. apply H. now exists x.
  - intros H [x [Hx E]]. rewrite (H x Hx) in E. discriminate.
Qed.

Lemma In_Contains (m : ComMatrix) (cd : ComDetails) :
  In cd (Matrix m) -> Contains m cd = true.
Proof.
  intros H. apply Contains_true_iff. exists cd. split; trivial.
  apply Equals_refl.
Qed.

End EqualsFacts.

(** ** Deduplication *)

Section CleanComDetailsFacts.

Lemma first_of_app (r : ComDetails) (l1 l2 : list ComDetails) :
  first_of r (l1 ++ l2) =
  match first_of r l1 with
  | Some x => Some x
  | None => first_of r l2
  end.
Proof.
  unfold first_of.
  induction l1 as [|x l1 IH]; simpl; trivial.
  destruct (Equals x r); trivial.
Qed.

Lemma first_of_seen (r item : ComDetails) (res : list ComDetails) :
  existsb (fun x => Equals x item) res = true ->
  Equals item r = true ->
  exists x, first_of r res = Some x.
Proof.
  intros Hseen Hir.
  apply existsb_exists in Hseen as [y [Hy Hyi]].
  unfold first_of.
  destruct (find (fun x => Equals x r) res) as [x|] eqn:F.
  - now exists x.
  - pose proof (find_none _ _ F y Hy) as N. simpl in N.
    rewrite (Equals_trans y item r Hyi Hir) in N. discriminate.
Qed.

(** The loop keeps, for every identity, the first record that carries it. *)
Lemma fold_CleanComDetails_first_of (r : ComDetails) (l res : list ComDetails) :
  first_of r (fold_left CleanComDetails_step l res) = first_of r (res ++ l).
Proof.
  revert res.
  induction l as [|item l IH]; intros res; simpl.
  - now rewrite app_nil_r.
  - rewrite IH. unfold CleanComDetails_step.
    destruct (existsb (fun x => Equals x item) res) eqn:Hseen.
    + rewrite !first_of_app.
      destruct (first_of r res) as [x|] eqn:Hres; trivial.
      unfold first_of at 2. simpl.
      destruct (Equals item r) eqn:Hir; trivial.
      destruct (first_of_seen r item res Hseen Hir) as [x Hx].
      congruence.
    + now rewrite <- app_assoc.
Qed.

Lemma CleanComDetails_first_of (r : ComDetails) (l : list ComDetails) :
  first_of r (CleanComDetails l) = first_of r l.
Proof. unfold CleanComDetails. now rewrite fold_CleanComDetails_first_of. Qed.

Lemma fold_CleanComDetails_distinct (l res : list ComDetails) :
  distinct_identities res ->
  distinct_identities (fold_left CleanComDetails_step l res).
Proof.
  revert res.
  induction l as [|item l IH]; intros res Hres; simpl; trivial.
  apply IH. unfold CleanComDetails_step.
  destruct (existsb (fun x => Equals x item) res) eqn:Hseen; trivial.
  now constructor.
Qed.

Lemma CleanComDetails_distinct (l : list ComDetails) :
  distinct_identities (CleanComDetails l).
Proof. apply fold_CleanComDetails_distinct. constructor. Qed.

(** Nothing is made up and the order is kept: what the loop adds is a
  subsequence of what it is given. *)
Lemma fold_CleanComDetails_subsequence (l res : list ComDetails) :
  exists s,
    fold_left CleanComDetails_step l res = res ++ s /\ subsequence s l.
Proof.
  revert res.
  induction l as [|item l IH]; intros res; simpl.
  - exists []. rewrite app_nil_r. split; [reflexivity | constructor].
  - unfold CleanComDetails_step at 2.
    destruct (existsb (fun x => Equals x item) res).
    + destruct (IH res) as [s [Hs Hsub]].
      exists s. split; [exact Hs | now constructor].
    + destruct (IH (res ++ [item])) as [s [Hs Hsub]].
      exists (item :: s). rewrite Hs, <- app_assoc.
      split; [reflexivity | now constructor].
Qed.

Lemma CleanComDetails_subsequence (l : list ComDetails) :
  subsequence (CleanComDetails l) l.
Proof.
  destruct (fold_CleanComDetails_subsequence l []) as [s [Hs Hsub]].
  unfold CleanComDetails. now rewrite Hs.
Qed.

Lemma subsequence_In (A : Type) (s l : list A) (x : A) :
  subsequence s l -> In x s -> In x l.
Proof.
  induction 1 as [|y s l _ IH|y s l _ IH]; simpl; intuition.
Qed.

End CleanComDetailsFacts.

(** ** The diff *)

Section StringFacts.

Lemma append_assoc (a b c : string) :
  ((a ++ b) ++ c)%string = (a ++ (b ++ c))%string.
Proof. induction a as [|ch a IH]; simpl; [trivial | now rewrite IH]. Qed.

Lemma append_empty_r (a : string) : (a ++ "")%string = a.
Proof. induction a as [|ch a IH]; simpl; [trivial | now rewrite IH]. Qed.

Lemma append_length (a b : string) :
  String.length (a ++ b) = String.length a + String.length b.
Proof. induction a as [|ch a IH]; simpl; [trivial | now rewrite IH]. Qed.

Lemma append_eq_empty (a b : string) :
  (a ++ b)%string = ""%string -> a = ""%string /\ b = ""%string.
Proof. destruct a; simpl; [auto | discriminate]. Qed.

End StringFacts.

Section DiffFacts.

Import cmd.

Variable CSVHeaders : string.
Variable ComDetails_String : ComDetails -> string.

Local Abbreviation line := (line ComDetails_String).
Local Abbreviation render := (render ComDetails_String).

Lemma render_app (a b : list (Mark * ComDetails)) :
  render (a ++ b) = (render a ++ render b)%string.
Proof.
  induction a as [|en a IH]; simpl; trivial.
  now rewrite IH, append_assoc.
Qed.

Lemma render_one (mk : Mark) (cd : ComDetails) :
  render [(mk, cd)] = line mk cd.
Proof. simpl. apply append_empty_r. Qed.

(** The text written by the first loop is the rendering of its lines. *)
Lemma declared_loop_text (mat2 : ComMatrix) (l : list ComDetails)
      (head : string) (acc : list (Mark * ComDetails)) :
  fold_left (declared_step ComDetails_String mat2) l (head ++ render acc)%string =
  (head ++ render (fold_left (declared_entry mat2) l acc))%string.
Proof.
  revert acc.
  induction l as [|cd l IH]; intros acc; simpl; trivial.
  unfold declared_step, declared_entry.
  destruct (Contains mat2 cd);
    rewrite <- IH, render_app, render_one, append_assoc; reflexivity.
Qed.

(** The same for the second loop. *)
Lemma observed_loop_text (mat1 : ComMatrix) (l : list ComDetails)
      (head : string) (acc : list (Mark * ComDetails)) :
  fold_left (observed_step ComDetails_String mat1) l (head ++ render acc)%string =
  (head ++ render (fold_left (observed_entry mat1) l acc))%string.
Proof.
  revert acc.
  induction l as [|cd l IH]; intros acc; simpl; trivial.
  unfold observed_step, observed_entry.
  destruct (String.eqb (Service cd) "rpc.statd"); [apply IH|].
  destruct (Contains mat1 cd); simpl; [apply IH|].
  rewrite <- IH, render_app, render_one, append_assoc; reflexivity.
Qed.

Lemma buildMatrixDiff_render (mat1 mat2 : ComMatrix) :
  buildMatrixDiff CSVHeaders ComDetails_String mat1 mat2 =
  (CSVHeaders ++ nl ++ render (diffEntries mat1 mat2))%string.
Proof.
  unfold buildMatrixDiff, diffEntries.
  rewrite <- append_assoc.
  rewrite <- observed_loop_text, <- declared_loop_text.
  simpl. now rewrite append_empty_r.
Qed.

Lemma declared_loop_entries (mat2 : ComMatrix) (l : list ComDetails)
      (acc : list (Mark * ComDetails)) :
  fold_left (declared_entry mat2) l acc =
  acc ++ map (fun cd => (if Contains mat2 cd then Unmarked else Plus, cd)) l.
Proof.
  revert acc.
  induction l as [|cd l IH]; intros acc; simpl.
  - now rewrite app_nil_r.
  - rewrite IH. unfold declared_entry.
    destruct (Contains mat2 cd); now rewrite <- app_assoc.
Qed.

Lemma observed_loop_entries (mat1 : ComMatrix) (l : list ComDetails)
      (acc : list (Mark * ComDetails)) :
  fold_left (observed_entry mat1) l acc =
  acc ++ map (fun cd => (Minus, cd))
             (filter (fun cd => negb (String.eqb (Service cd) "rpc.statd")
                                && negb (Contains mat1 cd)) l).
Proof.
  revert acc.
  induction l as [|cd l IH]; intros acc; simpl.
  - now rewrite app_nil_r.
  - rewrite IH. unfold observed_entry.
    destruct (String.eqb (Service cd) "rpc.statd"); simpl; trivial.
    destruct (Contains mat1 cd); simpl; trivial.
    now rewrite <- app_assoc.
Qed.

Lemma diffEntries_spec (mat1 mat2 : ComMatrix) :
  diffEntries mat1 mat2 =
  spec_declared_lines mat1 mat2 ++ spec_observed_lines mat1 mat2.
Proof.
  unfold diffEntries, spec_declared_lines, spec_observed_lines.
  now rewrite observed_loop_entries, declared_loop_entries.
Qed.

(** X21. A record of the observed matrix [mat2] whose service is
    "rpc.statd" and that the declared matrix [mat1] does not contain (by
    identity) produces no line in the output of [buildMatrixDiff]: the
    output is the header followed by the rendering of the lines written
    by the two loops, and none of these lines is the line of a record of
    that identity, under any mark. *)
Theorem rpc_statd_never_in_diff (mat1 mat2 : ComMatrix) (r : ComDetails) :
  In r (Matrix mat2) ->
  Service r = "rpc.statd"%string ->
  Contains mat1 r = false ->
  buildMatrixDiff CSVHeaders ComDetails_String mat1 mat2 =
    (CSVHeaders ++ nl ++ render (diffEntries mat1 mat2))%string /\
  forall mk cd, In (mk, cd) (diffEntries mat1 mat2) -> Equals cd r = false.
Proof.
  intros _ Hsvc Hnot. split; [apply buildMatrixDiff_render|].
  intros mk cd Hin.
  rewrite diffEntries_spec in Hin.
  apply in_app_or in Hin as [Hin|Hin].
  - unfold spec_declared_lines in Hin.
    apply in_map_iff in Hin as [x [Hx Hin]].
    inversion Hx; subst x.
    now apply (proj1 (Contains_false_iff mat1 r) Hnot).
  - unfold spec_observed_lines in Hin.
    apply in_map_iff in Hin as [x [Hx Hin]].
    inversion Hx; subst x.
    apply filter_In in Hin as [_ Hkeep].
    apply andb_true_iff in Hkeep as [Hsvc' _].
    destruct (Equals cd r) eqn:E; trivial.
    apply Equals_Service in E. rewrite E, Hsvc in Hsvc'. discriminate.
Qed.

(** The output of [buildMatrixDiff] is the header line, then one line
    per record of [mat1] in the order of [mat1] (unprefixed if [mat2]
    contains the record, prefixed with [+] otherwise), then one line
    prefixed with [-] per record of [mat2], in the order of [mat2], that
    [mat1] does not contain and whose service is not "rpc.statd"; and
    nothing else. *)
Theorem buildMatrixDiff_refines_spec (mat1 mat2 : ComMatrix) :
  buildMatrixDiff CSVHeaders ComDetails_String mat1 mat2 =
    (CSVHeaders ++ nl
     ++ render (spec_declared_lines mat1 mat2)
     ++ render (spec_observed_lines mat1 mat2))%string /\
  map snd (spec_declared_lines mat1 mat2) = Matrix mat1 /\
  (forall mk cd, In (mk, cd) (spec_declared_lines mat1 mat2) ->
     mk = if Contains mat2 cd then Unmarked else Plus) /\
  map snd (spec_observed_lines mat1 mat2) =
    filter (fun cd => negb (String.eqb (Service cd) "rpc.statd")
                      && negb (Contains mat1 cd)) (Matrix mat2) /\
  (forall mk cd, In (mk, cd) (spec_observed_lines mat1 mat2) -> mk = Minus).
Proof.
  repeat split.
  - now rewrite buildMatrixDiff_render, diffEntries_spec, render_app.
  - unfold spec_declared_lines. rewrite map_map. simpl. apply map_id.
  - intros mk cd Hin. unfold spec_declared_lines in Hin.
    apply in_map_iff in Hin as [x [Hx _]]. now inversion Hx.
  - unfold spec_observed_lines. rewrite map_map. simpl. apply map_id.
  - intros mk cd Hin. unfold spec_observed_lines in Hin.
    apply in_map_iff in Hin as [x [Hx _]]. now inversion Hx.
Qed.

(** The loops that the earlier [main] carried inline write neither the
    header nor honour the exception. *)
Lemma inline_diff_no_header_no_exception :
  inline_diff Scenario.csv_row
              (mkComMatrix [Scenario.sshd])
              (mkComMatrix [Scenario.sshd; Scenario.statd]) =
  (Scenario.csv_row Scenario.sshd ++ nl
   ++ "- " ++ Scenario.csv_row Scenario.statd ++ nl)%string.
Proof. reflexivity. Qed.

End DiffFacts.

(** The scenario of section 8: the declared matrix holds the ssh flow, the
    observed matrix the ssh flow and an [rpc.statd] flow. *)
Lemma rpc_statd_never_in_diff_witness :
  cmd.buildMatrixDiff Scenario.csv_headers Scenario.csv_row
    (mkComMatrix [Scenario.sshd]) (mkComMatrix [Scenario.sshd; Scenario.statd]) =
    (Scenario.csv_headers ++ cmd.nl
     ++ cmd.render Scenario.csv_row
          (cmd.diffEntries (mkComMatrix [Scenario.sshd])
                           (mkComMatrix [Scenario.sshd; Scenario.statd])))%string /\
  forall mk cd,
    In (mk, cd) (cmd.diffEntries (mkComMatrix [Scenario.sshd])
                                 (mkComMatrix [Scenario.sshd; Scenario.statd])) ->
    Equals cd Scenario.statd = false.
Proof.
  apply (rpc_statd_never_in_diff Scenario.csv_headers Scenario.csv_row
           (mkComMatrix [Scenario.sshd])
           (mkComMatrix [Scenario.sshd; Scenario.statd]) Scenario.statd).
  - simpl. right. left. reflexivity.
  - reflexivity.
  - reflexivity.
Defined.

(** ** The static catalogue *)

Section StaticCatalogueFacts.

Import commatrix.

Variable tables : Catalogue.

(** An environment outside the two known ones is refused, whatever the
    topology. *)
Lemma getStaticEntries_invalid_env (e : Env) (d : Deployment) :
  e <> Baremetal -> e <> AWS ->
  getStaticEntries tables e d = Err "invalid value for cluster environment".
Proof.
  intros Hb Ha. unfold getStaticEntries, getStaticEntries_switch.
  apply Z.eqb_neq in Hb, Ha. now rewrite Hb, Ha.
Qed.

Lemma getStaticEntries_Baremetal_SNO :
  getStaticEntries tables Baremetal SNO =
  Ok (baremetalStaticEntriesMaster tables ++ generalStaticEntriesMaster tables).
Proof. reflexivity. Qed.

Lemma getStaticEntries_Baremetal_MNO :
  getStaticEntries tables Baremetal MNO =
  Ok (baremetalStaticEntriesMaster tables ++ baremetalStaticEntriesWorker tables
      ++ generalStaticEntriesMaster tables ++ MNOStaticEntries tables
      ++ generalStaticEntriesWorker tables).
Proof.
  unfold getStaticEntries, getStaticEntries_switch. simpl.
  now repeat rewrite <- app_assoc.
Qed.

Lemma getStaticEntries_AWS_SNO :
  getStaticEntries tables AWS SNO =
  Ok (awsCloudStaticEntriesMaster tables ++ generalStaticEntriesMaster tables).
Proof. reflexivity. Qed.

Lemma getStaticEntries_AWS_MNO :
  getStaticEntries tables AWS MNO =
  Ok (awsCloudStaticEntriesMaster tables ++ awsCloudStaticEntriesWorker tables
      ++ generalStaticEntriesMaster tables ++ MNOStaticEntries tables
      ++ generalStaticEntriesWorker tables).
Proof.
  unfold getStaticEntries, getStaticEntries_switch. simpl.
  now repeat rewrite <- app_assoc.
Qed.

(** What is in the first and in the third of five tables is in their
    concatenation. *)
Lemma In_first_or_third (A : Type) (x : A) (t1 t2 t3 t4 t5 : list A) :
  In x (t1 ++ t3) -> In x (t1 ++ t2 ++ t3 ++ t4 ++ t5).
Proof.
  intros H. apply in_app_or in H as [H|H].
  - apply in_or_app. now left.
  - apply in_or_app. right. apply in_or_app. right. apply in_or_app. now left.
Qed.

(** C6. For the environments Baremetal and AWS, [getStaticEntries] answers,
    for SNO, the master table of the environment followed by the general
    master table; for MNO, the master table of the environment, the worker
    table of the environment, the general master table, the MNO-only table
    and the general worker table, in this order. *)
Theorem getStaticEntries_tables :
  getStaticEntries tables Baremetal SNO =
    Ok (baremetalStaticEntriesMaster tables ++ generalStaticEntriesMaster tables) /\
  getStaticEntries tables Baremetal MNO =
    Ok (baremetalStaticEntriesMaster tables ++ baremetalStaticEntriesWorker tables
        ++ generalStaticEntriesMaster tables ++ MNOStaticEntries tables
        ++ generalStaticEntriesWorker tables) /\
  getStaticEntries tables AWS SNO =
    Ok (awsCloudStaticEntriesMaster tables ++ generalStaticEntriesMaster tables) /\
  getStaticEntries tables AWS MNO =
    Ok (awsCloudStaticEntriesMaster tables ++ awsCloudStaticEntriesWorker tables
        ++ generalStaticEntriesMaster tables ++ MNOStaticEntries tables
        ++ generalStaticEntriesWorker tables).
Proof.
  split; [|split; [|split]].
  - apply getStaticEntries_Baremetal_SNO.
  - apply getStaticEntries_Baremetal_MNO.
  - apply getStaticEntries_AWS_SNO.
  - apply getStaticEntries_AWS_MNO.
Qed.

(** C7. For the environments Baremetal and AWS, every record that
    [getStaticEntries] answers for SNO is among the records it answers for
    MNO, and so is contained, by identity, in the MNO selection. *)
Theorem getStaticEntries_SNO_subset_MNO (e : Env) :
  e = Baremetal \/ e = AWS ->
  exists sno mno,
    getStaticEntries tables e SNO = Ok sno /\
    getStaticEntries tables e MNO = Ok mno /\
    forall cd, In cd sno ->
      In cd mno /\ Contains (mkComMatrix mno) cd = true.
Proof.
  intros [-> | ->].
  - eexists. eexists.
    split; [apply getStaticEntries_Baremetal_SNO|].
    split; [apply getStaticEntries_Baremetal_MNO|].
    intros cd Hin.
    split; [|apply In_Contains]; apply In_first_or_third; exact Hin.
  - eexists. eexists.
    split; [apply getStaticEntries_AWS_SNO|].
    split; [apply getStaticEntries_AWS_MNO|].
    intros cd Hin.
    split; [|apply In_Contains]; apply In_first_or_third; exact Hin.
Qed.

End StaticCatalogueFacts.

Lemma getStaticEntries_SNO_subset_MNO_witness :
  exists sno mno,
    commatrix.getStaticEntries Scenario.tables commatrix.Baremetal commatrix.SNO
      = Ok sno /\
    commatrix.getStaticEntries Scenario.tables commatrix.Baremetal commatrix.MNO
      = Ok mno /\
    forall cd, In cd sno ->
      In cd mno /\ Contains (mkComMatrix mno) cd = true.
Proof.
  apply (getStaticEntries_SNO_subset_MNO Scenario.tables commatrix.Baremetal).
  left. reflexivity.
Defined.

(** ** The assembly pipeline *)

Section NewFacts.

Import commatrix.

Variable tables : Catalogue.
Variable w : World.

Lemma parseFormat_unrecognized (format : string) :
  format <> "json"%string -> format <> "yaml"%string -> format <> "csv"%string ->
  parseFormat format =
  Err ("failed to parse format: " ++ format ++ ". options are: (json/yaml/csv)").
Proof.
  intros Hj Hy Hc. unfold parseFormat, FormatJSON, FormatYAML, FormatCSV.
  apply String.eqb_neq in Hj, Hy, Hc. now rewrite Hj, Hy, Hc.
Qed.

Lemma parseFormat_Ok (format : string) (f : Format) :
  parseFormat format = Ok f ->
  (format = "json"%string /\ f = JSON) \/
  (format = "yaml"%string /\ f = YAML) \/
  (format = "csv"%string /\ f = CSV).
Proof.
  unfold parseFormat, FormatJSON, FormatYAML, FormatCSV.
  destruct (String.eqb_spec format "json"); [intros [= <-]; auto|].
  destruct (String.eqb_spec format "yaml"); [intros [= <-]; auto|].
  destruct (String.eqb_spec format "csv"); [intros [= <-]; auto|].
  discriminate.
Qed.

(** What [New] does once the cluster and the catalogue have answered. *)
Lemma New_after_sources
      (kubeconfigPath customEntriesPath customEntriesFormat : string)
      (e : Env) (d : Deployment) (log : list Event)
      (cs : ClientSet w) (eps : list (EndpointSlicesInfo w))
      (cluster static : list ComDetails) :
  client_New w kubeconfigPath = Ok cs ->
  GetIngressEndpointSlicesInfo w cs = Ok eps ->
  ToComDetails w cs eps = Ok cluster ->
  getStaticEntries tables e d = Ok static ->
  New tables w kubeconfigPath customEntriesPath customEntriesFormat e d log =
  let log3 := log ++ cluster_events kubeconfigPath in
  if String.eqb customEntriesPath "" then
    (log3, Ok (mkComMatrix (CleanComDetails (cluster ++ static))))
  else
    match parseFormat customEntriesFormat with
    | Ok inputFormat =>
        match addFromFile w customEntriesPath inputFormat log3 with
        | (log', Ok custom) =>
            (log', Ok (mkComMatrix (CleanComDetails (cluster ++ static ++ custom))))
        | (log', Err err) => (log', Err ("failed adding custom entries: " ++ err))
        | (log', Panic msg) => (log', Panic msg)
        end
    | Err err => (log3, Err ("failed adding custom entries: " ++ err))
    | Panic msg => (log3, Panic msg)
    end.
Proof.
  intros Hcs Heps Hcl Hst.
  unfold New, bind, on_err, call, pure, ret, cluster_events.
  rewrite Hcs, Heps, Hcl, Hst. simpl.
  replace (((log ++ [EvClientNew kubeconfigPath])
              ++ [EvGetIngressEndpointSlicesInfo]) ++ [EvToComDetails])
    with (log ++ [EvClientNew kubeconfigPath; EvGetIngressEndpointSlicesInfo;
                  EvToComDetails])
    by (now repeat rewrite <- app_assoc).
  destruct (String.eqb customEntriesPath ""); trivial.
  destruct (parseFormat customEntriesFormat); trivial.
  destruct (addFromFile w customEntriesPath a _) as [log' [custom|err|msg]]; trivial.
  now rewrite <- app_assoc.
Qed.

(** Up to the choice between the two branches on the custom path, [New]
    only talks to the cluster; when one of these steps fails, it stops. *)
Lemma New_sources_fail
      (kubeconfigPath customEntriesPath customEntriesFormat : string)
      (e : Env) (d : Deployment) (log : list Event) :
  (exists cs eps cluster static,
      client_New w kubeconfigPath = Ok cs /\
      GetIngressEndpointSlicesInfo w cs = Ok eps /\
      ToComDetails w cs eps = Ok cluster /\
      getStaticEntries tables e d = Ok static) \/
  (exists evs r,
      New tables w kubeconfigPath customEntriesPath customEntriesFormat e d log
        = (log ++ evs, r) /\
      (forall ev, In ev evs -> is_file_event ev = false) /\
      (forall m, r <> Ok m) /\
      (forall format,
         New tables w kubeconfigPath customEntriesPath format e d log
           = (log ++ evs, r))).
Proof.
  unfold New, bind, on_err, call, pure, ret.
  destruct (client_New w kubeconfigPath) as [cs|err|msg] eqn:Hcs.
  2,3: right; eexists [_]; eexists; split; [reflexivity|];
       split; [intros ev [<-|[]]; reflexivity|]; split; [discriminate|reflexivity].
  destruct (GetIngressEndpointSlicesInfo w cs) as [eps|err|msg] eqn:Heps.
  2,3: right; eexists [_; _]; eexists; split;
       [rewrite <- app_assoc; reflexivity|];
       split; [intros ev [<-|[<-|[]]]; reflexivity|];
       split; [discriminate|intros; rewrite <- app_assoc; reflexivity].
  destruct (ToComDetails w cs eps) as [cluster|err|msg] eqn:Hcl.
  2,3: right; eexists [_; _; _]; eexists; split;
       [repeat rewrite <- app_assoc; reflexivity|];
       split; [intros ev [<-|[<-|[<-|[]]]]; reflexivity|];
       split; [discriminate|intros; repeat rewrite <- app_assoc; reflexivity].
  destruct (getStaticEntries tables e d) as [static|err|msg] eqn:Hst.
  2,3: right; eexists [_; _; _]; eexists; split;
       [repeat rewrite <- app_assoc; reflexivity|];
       split; [intros ev [<-|[<-|[<-|[]]]]; reflexivity|];
       split; [discriminate|intros; repeat rewrite <- app_assoc; reflexivity].
  left. exists cs, eps, cluster, static. auto.
Qed.

Lemma cluster_events_no_file (kubeconfigPath : string) (ev : Event) :
  In ev (cluster_events kubeconfigPath) -> is_file_event ev = false.
Proof. intros [<-|[<-|[<-|[]]]]; reflexivity. Qed.

(** C5. When [New] succeeds, the cluster, the catalogue and (when a path is
    given) the custom file have each answered a list of records, and the
    matrix returned is the deduplication of the cluster-derived records
    followed by the static records followed by the custom records: it has
    no two records of one identity, is a subsequence of the concatenation
    (the records kept are in the order in which they were first seen), and
    the record it keeps for an identity is the first one of
    the cluster-derived records if there is one, else the first one of the
    static records if there is one, else the first one of the custom
    records. *)
Theorem New_dedup_of_sources
        (kubeconfigPath customEntriesPath customEntriesFormat : string)
        (e : Env) (d : Deployment) (log log' : list Event) (m : ComMatrix) :
  New tables w kubeconfigPath customEntriesPath customEntriesFormat e d log
    = (log', Ok m) ->
  exists cs eps cluster static custom,
    client_New w kubeconfigPath = Ok cs /\
    GetIngressEndpointSlicesInfo w cs = Ok eps /\
    ToComDetails w cs eps = Ok cluster /\
    getStaticEntries tables e d = Ok static /\
    (if String.eqb customEntriesPath ""
     then custom = [] /\ log' = log ++ cluster_events kubeconfigPath
     else exists inputFormat,
         parseFormat customEntriesFormat = Ok inputFormat /\
         addFromFile w customEntriesPath inputFormat
                     (log ++ cluster_events kubeconfigPath) = (log', Ok custom)) /\
    Matrix m = CleanComDetails (cluster ++ static ++ custom) /\
    distinct_identities (Matrix m) /\
    subsequence (Matrix m) (cluster ++ static ++ custom) /\
    (forall r,
        first_of r (Matrix m) =
        match first_of r cluster with
        | Some x => Some x
        | None =>
            match first_of r static with
            | Some x => Some x
            | None => first_of r custom
            end
        end).
Proof.
  intros Hrun.
  destruct (New_sources_fail kubeconfigPath customEntriesPath
              customEntriesFormat e d log)
    as [(cs & eps & cluster & static & Hcs & Heps & Hcl & Hst)
       | (evs & r & Hfail & _ & Hnot & _)].
  2: { rewrite Hfail in Hrun. injection Hrun as _ Hr. now apply Hnot in Hr. }
  rewrite (New_after_sources kubeconfigPath customEntriesPath
             customEntriesFormat e d log cs eps cluster static
             Hcs Heps Hcl Hst) in Hrun.
  cbv zeta in Hrun.
  assert (forall custom,
             Matrix m = CleanComDetails (cluster ++ static ++ custom) ->
             distinct_identities (Matrix m) /\
             subsequence (Matrix m) (cluster ++ static ++ custom) /\
             (forall r,
                 first_of r (Matrix m) =
                 match first_of r cluster with
                 | Some x => Some x
                 | None =>
                     match first_of r static with
                     | Some x => Some x
                     | None => first_of r custom
                     end
                 end)) as Hdedup.
  { intros custom ->. split; [apply CleanComDetails_distinct|].
    split; [apply CleanComDetails_subsequence|].
    intros r. now rewrite CleanComDetails_first_of, !first_of_app. }
  exists cs, eps, cluster, static.
  destruct (String.eqb customEntriesPath "").
  - exists []. injection Hrun as <- <-.
    repeat (split; [assumption || reflexivity|]).
    split; [split; reflexivity|].
    assert (Matrix (mkComMatrix (CleanComDetails (cluster ++ static)))
            = CleanComDetails (cluster ++ static ++ [])) as Hm
        by (simpl; now rewrite app_nil_r).
    split; [exact Hm | exact (Hdedup [] Hm)].
  - destruct (parseFormat customEntriesFormat) as [inputFormat|err|msg];
      try discriminate.
    destruct (addFromFile w customEntriesPath inputFormat
                (log ++ cluster_events kubeconfigPath))
      as [log1 [custom|err|msg]] eqn:Hadd; try discriminate.
    exists custom. injection Hrun as <- <-.
    repeat (split; [assumption || reflexivity|]).
    split; [exists inputFormat; split; reflexivity || assumption|].
    split; [reflexivity | exact (Hdedup custom eq_refl)].
Qed.

(** C8, as the code has it.  When a custom path is given and the format
    token is none of "json", "yaml", "csv", [New] never succeeds and makes
    no call to the file system; the error is the one of the refused format
    when the client, the endpoint slices, their translation and the static
    catalogue have answered, and otherwise the error of the first of these
    steps that failed, as [New] wraps it: "failed creating the k8s client:
    ..." for the client, "failed getting endpointslices: ..." for the
    endpoint slices, the error itself for their translation, "failed
    adding static entries: ..." for the static catalogue (a panic of one of
    them is passed on). *)
Theorem New_unrecognized_format
        (kubeconfigPath customEntriesPath customEntriesFormat : string)
        (e : Env) (d : Deployment) (log : list Event) :
  customEntriesPath <> ""%string ->
  customEntriesFormat <> "json"%string ->
  customEntriesFormat <> "yaml"%string ->
  customEntriesFormat <> "csv"%string ->
  New tables w kubeconfigPath customEntriesPath customEntriesFormat e d log =
    match client_New w kubeconfigPath with
    | Ok cs =>
        match GetIngressEndpointSlicesInfo w cs with
        | Ok eps =>
            match ToComDetails w cs eps with
            | Ok cluster =>
                match getStaticEntries tables e d with
                | Ok static =>
                    (log ++ [EvClientNew kubeconfigPath;
                             EvGetIngressEndpointSlicesInfo; EvToComDetails],
                     Err ("failed adding custom entries: failed to parse format: "
                          ++ customEntriesFormat
                          ++ ". options are: (json/yaml/csv)"))
                | Err err =>
                    (log ++ [EvClientNew kubeconfigPath;
                             EvGetIngressEndpointSlicesInfo; EvToComDetails],
                     Err ("failed adding static entries: " ++ err))
                | Panic msg =>
                    (log ++ [EvClientNew kubeconfigPath;
                             EvGetIngressEndpointSlicesInfo; EvToComDetails],
                     Panic msg)
                end
            | Err err =>
                (log ++ [EvClientNew kubeconfigPath;
                         EvGetIngressEndpointSlicesInfo; EvToComDetails],
                 Err err)
            | Panic msg =>
                (log ++ [EvClientNew kubeconfigPath;
                         EvGetIngressEndpointSlicesInfo; EvToComDetails],
                 Panic msg)
            end
        | Err err =>
            (log ++ [EvClientNew kubeconfigPath; EvGetIngressEndpointSlicesInfo],
             Err ("failed getting endpointslices: " ++ err))
        | Panic msg =>
            (log ++ [EvClientNew kubeconfigPath; EvGetIngressEndpointSlicesInfo],
             Panic msg)
        end
    | Err err =>
        (log ++ [EvClientNew kubeconfigPath],
         Err ("failed creating the k8s client: " ++ err))
    | Panic msg => (log ++ [EvClientNew kubeconfigPath], Panic msg)
    end /\
  exists evs r,
    New tables w kubeconfigPath customEntriesPath customEntriesFormat e d log
      = (log ++ evs, r) /\
    (forall ev, In ev evs -> is_file_event ev = false) /\
    (forall m, r <> Ok m) /\
    (forall cs eps cluster static,
        client_New w kubeconfigPath = Ok cs ->
        GetIngressEndpointSlicesInfo w cs = Ok eps ->
        ToComDetails w cs eps = Ok cluster ->
        getStaticEntries tables e d = Ok static ->
        evs = cluster_events kubeconfigPath /\
        r = Err (UnsupportedFormat customEntriesFormat)).
Proof.
  intros Hpath Hj Hy Hc.
  apply String.eqb_neq in Hpath.
  pose proof (parseFormat_unrecognized customEntriesFormat Hj Hy Hc) as Hparse.
  split.
  { unfold New, bind, on_err, call, pure.
    destruct (client_New w kubeconfigPath) as [cs|err|msg]; trivial.
    destruct (GetIngressEndpointSlicesInfo w cs) as [eps|err|msg];
      try (now rewrite <- app_assoc).
    destruct (ToComDetails w cs eps) as [cluster|err|msg];
      try (now repeat rewrite <- app_assoc).
    destruct (getStaticEntries tables e d) as [static|err|msg];
      try (now repeat rewrite <- app_assoc).
    rewrite Hpath, Hparse. now repeat rewrite <- app_assoc. }
  destruct (New_sources_fail kubeconfigPath customEntriesPath
              customEntriesFormat e d log)
    as [(cs & eps & cluster & static & Hcs & Heps & Hcl & Hst)
       | (evs & r & Hfail & Hnofile & Hnot & _)].
  - exists (cluster_events kubeconfigPath).
    exists (Err (UnsupportedFormat customEntriesFormat)).
    split; [|split; [apply cluster_events_no_file|split; [discriminate|auto]]].
    rewrite (New_after_sources kubeconfigPath customEntriesPath
               customEntriesFormat e d log cs eps cluster static
               Hcs Heps Hcl Hst).
    cbv zeta. now rewrite Hpath, Hparse.
  - exists evs, r.
    split; [exact Hfail|split; [exact Hnofile|split; [exact Hnot|]]].
    intros cs eps cluster static Hcs Heps Hcl Hst.
    rewrite (New_after_sources kubeconfigPath customEntriesPath
               customEntriesFormat e d log cs eps cluster static
               Hcs Heps Hcl Hst) in Hfail.
    cbv zeta in Hfail. rewrite Hpath, Hparse in Hfail.
    injection Hfail as Hlog Hr.
    apply app_inv_head in Hlog. split; [now symmetry|now symmetry].
Qed.

(** C9. When the custom path is empty, the format token plays no part in
    what [New] does: the run is the same under any other token; no call
    to the file system is made; and when the client, the endpoint slices,
    their translation and the static catalogue have answered, [New]
    succeeds with the deduplication of the cluster-derived records followed
    by the static records. *)
Theorem New_without_custom_path
        (kubeconfigPath customEntriesFormat : string)
        (e : Env) (d : Deployment) (log : list Event) :
  (forall format,
      New tables w kubeconfigPath "" format e d log =
      New tables w kubeconfigPath "" customEntriesFormat e d log) /\
  (exists evs r,
      New tables w kubeconfigPath "" customEntriesFormat e d log
        = (log ++ evs, r) /\
      forall ev, In ev evs -> is_file_event ev = false) /\
  (forall cs eps cluster static,
      client_New w kubeconfigPath = Ok cs ->
      GetIngressEndpointSlicesInfo w cs = Ok eps ->
      ToComDetails w cs eps = Ok cluster ->
      getStaticEntries tables e d = Ok static ->
      New tables w kubeconfigPath "" customEntriesFormat e d log =
      (log ++ cluster_events kubeconfigPath,
       Ok (mkComMatrix (CleanComDetails (cluster ++ static))))).
Proof.
  split; [|split].
  - intros format. unfold New. reflexivity.
  - destruct (New_sources_fail kubeconfigPath "" customEntriesFormat e d log)
      as [(cs & eps & cluster & static & Hcs & Heps & Hcl & Hst)
         | (evs & r & Hfail & Hnofile & _)].
    + eexists. eexists. split; [|apply cluster_events_no_file].
      rewrite (New_after_sources kubeconfigPath "" customEntriesFormat e d log
                 cs eps cluster static Hcs Heps Hcl Hst).
      reflexivity.
    + exists evs, r. split; assumption.
  - intros cs eps cluster static Hcs Heps Hcl Hst.
    rewrite (New_after_sources kubeconfigPath "" customEntriesFormat e d log
               cs eps cluster static Hcs Heps Hcl Hst).
    reflexivity.
Qed.

End NewFacts.

Lemma New_dedup_of_sources_witness :
  exists cs eps cluster static custom,
    commatrix.client_New Scenario.up "kubeconfig" = Ok cs /\
    commatrix.GetIngressEndpointSlicesInfo Scenario.up cs = Ok eps /\
    commatrix.ToComDetails Scenario.up cs eps = Ok cluster /\
    commatrix.getStaticEntries Scenario.tables commatrix.Baremetal commatrix.MNO
      = Ok static /\
    (if String.eqb "custom.json" ""
     then custom = [] /\
          commatrix.cluster_events "kubeconfig" ++ Scenario.custom_events
          = [] ++ commatrix.cluster_events "kubeconfig"
     else exists inputFormat,
         commatrix.parseFormat "json" = Ok inputFormat /\
         commatrix.addFromFile Scenario.up "custom.json" inputFormat
           ([] ++ commatrix.cluster_events "kubeconfig")
         = (commatrix.cluster_events "kubeconfig" ++ Scenario.custom_events,
            Ok custom)) /\
    Matrix Scenario.declared = CleanComDetails (cluster ++ static ++ custom) /\
    distinct_identities (Matrix Scenario.declared) /\
    subsequence (Matrix Scenario.declared) (cluster ++ static ++ custom) /\
    (forall r,
        first_of r (Matrix Scenario.declared) =
        match first_of r cluster with
        | Some x => Some x
        | None =>
            match first_of r static with
            | Some x => Some x
            | None => first_of r custom
            end
        end).
Proof.
  apply (New_dedup_of_sources Scenario.tables Scenario.up
           "kubeconfig" "custom.json" "json"
           commatrix.Baremetal commatrix.MNO []).
  reflexivity.
Defined.

(** On a collision the cluster-derived record is kept rather than the
    static one, and the static one rather than the custom one. *)
Lemma New_collisions_example :
  first_of Scenario.api_static (Matrix Scenario.declared) = Some Scenario.api_cluster /\
  first_of Scenario.etcd_custom (Matrix Scenario.declared) = Some Scenario.etcd_static.
Proof. split; reflexivity. Qed.

Lemma New_unrecognized_format_witness :
  commatrix.New Scenario.tables Scenario.up "kubeconfig" "custom.xml" "xml"
                commatrix.Baremetal commatrix.MNO [] =
    ([EvClientNew "kubeconfig"; EvGetIngressEndpointSlicesInfo; EvToComDetails],
     Err "failed adding custom entries: failed to parse format: xml. options are: (json/yaml/csv)") /\
  exists evs r,
    commatrix.New Scenario.tables Scenario.up "kubeconfig" "custom.xml" "xml"
                  commatrix.Baremetal commatrix.MNO []
      = ([] ++ evs, r) /\
    (forall ev, In ev evs -> is_file_event ev = false) /\
    (forall m, r <> Ok m) /\
    (forall cs eps cluster static,
        commatrix.client_New Scenario.up "kubeconfig" = Ok cs ->
        commatrix.GetIngressEndpointSlicesInfo Scenario.up cs = Ok eps ->
        commatrix.ToComDetails Scenario.up cs eps = Ok cluster ->
        commatrix.getStaticEntries Scenario.tables
          commatrix.Baremetal commatrix.MNO = Ok static ->
        evs = commatrix.cluster_events "kubeconfig" /\
        r = Err (commatrix.UnsupportedFormat "xml")).
Proof.
  apply (New_unrecognized_format Scenario.tables Scenario.up
           "kubeconfig" "custom.xml" "xml" commatrix.Baremetal commatrix.MNO []);
    discriminate.
Defined.

(** With a cluster that cannot be reached, a custom path and the token
    "xml", [New] answers the error of the client. *)
Lemma New_down_run :
  commatrix.New Scenario.tables Scenario.down "kubeconfig" "custom.xml" "xml"
                commatrix.Baremetal commatrix.MNO [] =
  ([EvClientNew "kubeconfig"],
   Err "failed creating the k8s client: connection refused").
Proof. reflexivity. Qed.

(** C8 as it was stated does not hold: it is not for every call with a
    custom path and an unrecognized token that [New] answers the error of
    the refused format. *)
Lemma New_unrecognized_format_not_always_reported :
  ~ (forall (tables : commatrix.Catalogue) (w : commatrix.World)
            (kubeconfigPath customEntriesPath customEntriesFormat : string)
            (e : commatrix.Env) (d : commatrix.Deployment) (log : list Event),
        customEntriesPath <> ""%string ->
        customEntriesFormat <> "json"%string ->
        customEntriesFormat <> "yaml"%string ->
        customEntriesFormat <> "csv"%string ->
        exists log',
          commatrix.New tables w kubeconfigPath customEntriesPath
                        customEntriesFormat e d log
          = (log', Err (commatrix.UnsupportedFormat customEntriesFormat))).
Proof.
  intros H.
  destruct (H Scenario.tables Scenario.down "kubeconfig"%string
              "custom.xml"%string "xml"%string
              commatrix.Baremetal commatrix.MNO [])
    as [log' Hrun]; try discriminate.
Qed.

Lemma New_without_custom_path_witness :
  commatrix.New Scenario.tables Scenario.up "kubeconfig" "" "xml"
                commatrix.AWS commatrix.SNO [] =
  ([] ++ commatrix.cluster_events "kubeconfig",
   Ok (mkComMatrix
         (CleanComDetails ([Scenario.api_cluster]
                           ++ [Scenario.api_static; Scenario.sshd])))).
Proof.
  apply (proj2 (proj2 (New_without_custom_path Scenario.tables Scenario.up
                         "kubeconfig" "xml" commatrix.AWS commatrix.SNO []))
               tt [tt] [Scenario.api_cluster]
               [Scenario.api_static; Scenario.sshd]);
    reflexivity.
Defined.

(** ** The firewall rules *)

Section FireWallFacts.

Import commatrix.

Lemma append_same_l (a b : string) : (a ++ b)%string = a -> b = ""%string.
Proof.
  induction a as [|ch a IH]; simpl; trivial.
  intros [= H]. auto.
Qed.

(** The text added for a port is never empty. *)
Lemma port_item_not_empty (port : Z) : (Sprint port ++ ", ")%string <> ""%string.
Proof.
  intros H. apply append_eq_empty in H as [_ H]. discriminate.
Qed.

(** A turn of the loop, by cases on the role and the protocol. *)
Lemma collectPorts_step_cases (role tcp udp : string) (cd : ComDetails) :
  collectPorts_step role (tcp, udp) cd =
  (if String.eqb (NodeRole cd) role && String.eqb (Protocol cd) "TCP"
   then (tcp ++ (Sprint (Port cd) ++ ", "))%string else tcp,
   if String.eqb (NodeRole cd) role && String.eqb (Protocol cd) "UDP"
   then (udp ++ (Sprint (Port cd) ++ ", "))%string else udp).
Proof.
  unfold collectPorts_step.
  destruct (String.eqb (NodeRole cd) role); reflexivity.
Qed.

(** The two strings that the loop builds over a matrix. *)
Lemma collectPorts_loop (role : string) (l : list ComDetails) (tcp udp : string) :
  fold_left (collectPorts_step role) l (tcp, udp) =
  ((tcp ++ joinPorts (portsOf "TCP" (mkComMatrix l) role))%string,
   (udp ++ joinPorts (portsOf "UDP" (mkComMatrix l) role))%string).
Proof.
  revert tcp udp.
  induction l as [|cd l IH]; intros tcp udp.
  - simpl. now rewrite !append_empty_r.
  - cbn [fold_left]. rewrite collectPorts_step_cases, IH.
    unfold portsOf. cbn [Matrix filter].
    destruct (String.eqb (NodeRole cd) role), (String.eqb (Protocol cd) "TCP") eqn:Htcp,
             (String.eqb (Protocol cd) "UDP") eqn:Hudp;
      cbn [andb map joinPorts fold_right]; rewrite ?append_assoc; reflexivity.
Qed.

Lemma collectPorts_spec (m : ComMatrix) (role : string) :
  collectPorts m role =
  (joinPorts (portsOf "TCP" m role), joinPorts (portsOf "UDP" m role)).
Proof.
  unfold collectPorts. destruct m as [l]. now rewrite collectPorts_loop.
Qed.

(** The text of a non-empty list of ports is the ports separated by ", ",
    followed by one more ", ". *)
Lemma joinPorts_concat (p : Z) (ps : list Z) :
  joinPorts (p :: ps) = (String.concat ", " (map Sprint (p :: ps)) ++ ", ")%string.
Proof.
  revert p.
  induction ps as [|q ps IH]; intros p.
  - reflexivity.
  - change (joinPorts (p :: q :: ps))
      with (Sprint p ++ ", " ++ joinPorts (q :: ps))%string.
    rewrite IH.
    change (String.concat ", " (map Sprint (p :: q :: ps)))
      with (Sprint p ++ ", " ++ String.concat ", " (map Sprint (q :: ps)))%string.
    now rewrite !append_assoc.
Qed.

Lemma substring_append (a b : string) :
  substring 0 (String.length a) (a ++ b) = a.
Proof.
  induction a as [|ch a IH]; simpl.
  - now destruct b.
  - now rewrite IH.
Qed.

(** Slicing the last two bytes off removes the trailing ", ". *)
Lemma slice_to_trailing (body : string) :
  slice_to (body ++ ", ") (Z.of_nat (String.length (body ++ ", ")) - 2) = Ok body.
Proof.
  unfold slice_to. cbv zeta. rewrite append_length. simpl String.length.
  replace (Z.of_nat (String.length body + 2) - 2)%Z
    with (Z.of_nat (String.length body)) by lia.
  rewrite Nat2Z.id, substring_append.
  destruct (Z.ltb_spec (Z.of_nat (String.length body)) 0); [lia|].
  destruct (Z.ltb_spec (Z.of_nat (String.length body + 2))
                       (Z.of_nat (String.length body))); [lia|].
  reflexivity.
Qed.

(** The slice of [ApplyFireWallRules] on the text of a list of ports. *)
Lemma slice_to_joinPorts (ports : list Z) :
  slice_to (joinPorts ports) (Z.of_nat (String.length (joinPorts ports)) - 2) =
  match ports with
  | [] => Panic "runtime error: slice bounds out of range [:-2]"
  | _ :: _ => Ok (String.concat ", " (map Sprint ports))
  end.
Proof.
  destruct ports as [|p ps]; [reflexivity|].
  rewrite joinPorts_concat. apply slice_to_trailing.
Qed.

(** What [ApplyFireWallRules] does, by cases on the two lists of ports:
    with no TCP port or no UDP port for the role it panics on the slice
    that removes the trailing ", ", before any call to the cluster. *)
Lemma ApplyFireWallRules_cases (w : World) (cs : ClientSet w)
      (m : ComMatrix) (role : string) (log : list Event) :
  ApplyFireWallRules w cs m role log =
  match portsOf "TCP" m role, portsOf "UDP" m role with
  | _ :: _, _ :: _ =>
      applyToNodes w cs role
        (String.concat ", " (map Sprint (portsOf "TCP" m role)))
        (String.concat ", " (map Sprint (portsOf "UDP" m role))) log
  | _, _ => (log, Panic "runtime error: slice bounds out of range [:-2]")
  end.
Proof.
  unfold ApplyFireWallRules. rewrite collectPorts_spec.
  unfold bind, pure. rewrite !slice_to_joinPorts.
  destruct (portsOf "TCP" m role), (portsOf "UDP" m role); reflexivity.
Qed.

(** C1, at a matrix whose only record of the role is a TCP one: there is
    no UDP port for the role "master", and [ApplyFireWallRules] does not
    return an error, it panics with a slice out of bounds. *)
Theorem ApplyFireWallRules_no_UDP_port_panics :
  portsOf "UDP" (mkComMatrix [Scenario.sshd]) "master" = [] /\
  ApplyFireWallRules Scenario.up tt (mkComMatrix [Scenario.sshd]) "master" [] =
  ([], Panic "runtime error: slice bounds out of range [:-2]").
Proof. split; reflexivity. Qed.

(** C10. A turn of the loop of [ApplyFireWallRules] adds the port of the
    record to the TCP string exactly when the role of the record is the
    target role and its protocol is "TCP", to the UDP string exactly when
    the role is the target role and the protocol is "UDP", and leaves the
    strings as they are otherwise; over a matrix, the two strings are the
    ports of the records of the role with protocol "TCP", respectively
    "UDP", in the order of the matrix, and nothing else of the matrix
    reaches the rules: what [ApplyFireWallRules] does is decided by these
    two lists. *)
Theorem collectPorts_contribution (role tcp udp : string) (cd : ComDetails)
        (m : ComMatrix) (w : World) (cs : ClientSet w) (log : list Event) :
  collectPorts_step role (tcp, udp) cd =
    (if String.eqb (NodeRole cd) role && String.eqb (Protocol cd) "TCP"
     then (tcp ++ (Sprint (Port cd) ++ ", "))%string else tcp,
     if String.eqb (NodeRole cd) role && String.eqb (Protocol cd) "UDP"
     then (udp ++ (Sprint (Port cd) ++ ", "))%string else udp) /\
  (fst (collectPorts_step role (tcp, udp) cd) <> tcp <->
   NodeRole cd = role /\ Protocol cd = "TCP"%string) /\
  (snd (collectPorts_step role (tcp, udp) cd) <> udp <->
   NodeRole cd = role /\ Protocol cd = "UDP"%string) /\
  collectPorts m role =
    (joinPorts (portsOf "TCP" m role), joinPorts (portsOf "UDP" m role)) /\
  ApplyFireWallRules w cs m role log =
    match portsOf "TCP" m role, portsOf "UDP" m role with
    | _ :: _, _ :: _ =>
        applyToNodes w cs role
          (String.concat ", " (map Sprint (portsOf "TCP" m role)))
          (String.concat ", " (map Sprint (portsOf "UDP" m role))) log
    | _, _ => (log, Panic "runtime error: slice bounds out of range [:-2]")
    end.
Proof.
  split; [apply collectPorts_step_cases|].
  rewrite collectPorts_step_cases. cbn [fst snd].
  split; [|split; [|split; [apply collectPorts_spec
                           |apply ApplyFireWallRules_cases]]].
  - destruct (String.eqb_spec (NodeRole cd) role) as [Hr|Hr],
             (String.eqb_spec (Protocol cd) "TCP") as [Hp|Hp]; cbn [andb];
      split; try tauto; try (intros _; split; assumption).
    intros _ H. apply append_same_l in H.
    now apply port_item_not_empty in H.
  - destruct (String.eqb_spec (NodeRole cd) role) as [Hr|Hr],
             (String.eqb_spec (Protocol cd) "UDP") as [Hp|Hp]; cbn [andb];
      split; try tauto; try (intros _; split; assumption).
    intros _ H. apply append_same_l in H.
    now apply port_item_not_empty in H.
Qed.

(** How often a port is listed: once per record of the role and the
    protocol that carries it. *)
Lemma portsOf_count (protocol role : string) (m : ComMatrix) (port : Z) :
  count_occ Z.eq_dec (portsOf protocol m role) port =
  List.length
    (filter (fun cd => String.eqb (NodeRole cd) role
                       && String.eqb (Protocol cd) protocol
                       && Z.eqb (Port cd) port)
            (Matrix m)).
Proof.
  unfold portsOf. destruct m as [l]. cbn [Matrix].
  induction l as [|cd l IH]; trivial.
  cbn [filter].
  destruct (String.eqb (NodeRole cd) role && String.eqb (Protocol cd) protocol);
    cbn [andb map count_occ]; trivial.
  destruct (Z.eq_dec (Port cd) port) as [Hp|Hp].
  - apply Z.eqb_eq in Hp. rewrite Hp. cbn [List.length]. now rewrite IH.
  - apply Z.eqb_neq in Hp. now rewrite Hp.
Qed.

(** C4, as the code has it.  The TCP and the UDP string built by
    [ApplyFireWallRules] hold, in the order of the matrix, the port of
    every record of the role with that protocol, one entry per record: a
    port is listed as many times as there are such records that carry it,
    and ports are not deduplicated. *)
Theorem collectPorts_one_entry_per_record (m : ComMatrix) (role : string) :
  collectPorts m role =
    (joinPorts (portsOf "TCP" m role), joinPorts (portsOf "UDP" m role)) /\
  forall protocol port,
    count_occ Z.eq_dec (portsOf protocol m role) port =
    List.length
      (filter (fun cd => String.eqb (NodeRole cd) role
                         && String.eqb (Protocol cd) protocol
                         && Z.eqb (Port cd) port)
              (Matrix m)).
Proof.
  split; [apply collectPorts_spec|].
  intros protocol port. apply portsOf_count.
Qed.

(** C4 as it was stated does not hold.  The two records of
    [Scenario.control_plane] on TCP port 6443 differ in their identity, so
    deduplication keeps both; the TCP list then holds the port twice, and
    so does the rule sent to the node. *)
Lemma ApplyFireWallRules_port_listed_twice :
  Equals Scenario.api_cluster Scenario.balancer = false /\
  CleanComDetails (Matrix Scenario.control_plane) = Matrix Scenario.control_plane /\
  collectPorts Scenario.control_plane "master" = ("6443, 6443, "%string, "68, "%string) /\
  portsOf "TCP" Scenario.control_plane "master" = [6443%Z; 6443%Z] /\
  ~ NoDup (portsOf "TCP" Scenario.control_plane "master") /\
  In (EvDebugExec "master-0"
        "sudo nft add rule ip filter FIREWALL tcp dport { 6443, 6443 } accept")
     (fst (ApplyFireWallRules Scenario.up tt Scenario.control_plane "master" [])).
Proof.
  split; [reflexivity|].
  split; [reflexivity|].
  split; [reflexivity|].
  split; [reflexivity|].
  split.
  - intros H. change (NoDup [6443%Z; 6443%Z]) in H.
    inversion H as [|x l Hnotin _]. apply Hnotin. now left.
  - vm_compute. tauto.
Qed.

(** A record of another protocol, or of another role, leaves no trace. *)
Lemma collectPorts_SCTP_example :
  collectPorts (mkComMatrix [Scenario.sctp; Scenario.sshd; Scenario.dhcp;
                             Scenario.node_exporter]) "master" =
  ("22, "%string, "68, "%string).
Proof. reflexivity. Qed.

End FireWallFacts.

(** * Further properties of the code *)

(** ** The diff, continued *)

Section DiffEdges.

Import cmd.

Variable CSVHeaders : string.
Variable ComDetails_String : ComDetails -> string.

Local Abbreviation render := (render ComDetails_String).

(** What a line of the diff says about its record. *)
Lemma diffEntries_marks (mat1 mat2 : ComMatrix) (mk : Mark) (cd : ComDetails) :
  In (mk, cd) (diffEntries mat1 mat2) ->
  match mk with
  | Unmarked => In cd (Matrix mat1) /\ Contains mat2 cd = true
  | Plus => In cd (Matrix mat1) /\ Contains mat2 cd = false
  | Minus => In cd (Matrix mat2) /\ Contains mat1 cd = false /\
             Service cd <> "rpc.statd"%string
  end.
Proof.
  rewrite diffEntries_spec. intros Hin.
  apply in_app_or in Hin as [Hin|Hin].
  - unfold spec_declared_lines in Hin.
    apply in_map_iff in Hin as [x [Hx Hin]].
    destruct (Contains mat2 x) eqn:Hc; inversion Hx; subst; auto.
  - unfold spec_observed_lines in Hin.
    apply in_map_iff in Hin as [x [Hx Hin]].
    inversion Hx; subst.
    apply filter_In in Hin as [Hin Hkeep].
    apply andb_true_iff in Hkeep as [Hsvc Hnot].
    apply negb_true_iff in Hsvc, Hnot.
    apply String.eqb_neq in Hsvc. auto.
Qed.

(** X1. In the output of [buildMatrixDiff] a record written with [-] has
    the identity of no record written unprefixed or with [+]: no flow is
    reported both as declared and as undeclared.  The output is the header
    followed by the rendering of the lines of [diffEntries], of which this
    is said. *)
Theorem diff_minus_apart (mat1 mat2 : ComMatrix) (mk : Mark)
        (declared observed : ComDetails) :
  In (mk, declared) (diffEntries mat1 mat2) ->
  mk <> Minus ->
  In (Minus, observed) (diffEntries mat1 mat2) ->
  buildMatrixDiff CSVHeaders ComDetails_String mat1 mat2 =
    (CSVHeaders ++ nl ++ render (diffEntries mat1 mat2))%string /\
  Equals declared observed = false.
Proof.
  intros Hd Hmk Ho.
  split; [apply buildMatrixDiff_render|].
  apply diffEntries_marks in Hd, Ho.
  destruct Ho as [_ [Hnot _]].
  assert (In declared (Matrix mat1)) as Hin
      by (destruct mk; [apply Hd | apply Hd | congruence]).
  exact (proj1 (Contains_false_iff mat1 observed) Hnot declared Hin).
Qed.

(** X2. The diff of a matrix with itself writes every record unprefixed,
    once, in order, and nothing else after the header. *)
Theorem buildMatrixDiff_same (m : ComMatrix) :
  buildMatrixDiff CSVHeaders ComDetails_String m m =
  (CSVHeaders ++ nl ++ render (map (fun cd => (Unmarked, cd)) (Matrix m)))%string.
Proof.
  rewrite buildMatrixDiff_render, diffEntries_spec.
  unfold spec_declared_lines, spec_observed_lines.
  assert (forall l, (forall cd, In cd l -> Contains m cd = true) ->
            filter (fun cd => negb (String.eqb (Service cd) "rpc.statd")
                              && negb (Contains m cd)) l = []) as Hnone.
  { induction l as [|cd l IH]; intros Hall; simpl; trivial.
    rewrite (Hall cd (or_introl eq_refl)), andb_false_r.
    apply IH. intros x Hx. apply Hall. now right. }
  rewrite (Hnone (Matrix m) (In_Contains m)). simpl. rewrite app_nil_r.
  f_equal. f_equal. f_equal.
  apply map_ext_in. intros cd Hin. now rewrite (In_Contains m cd Hin).
Qed.

(** X3. With nothing observed, every declared record is written with [+];
    with nothing declared, the diff is one [-] line per observed record
    whose service is not "rpc.statd". *)
Theorem buildMatrixDiff_empty_side (m : ComMatrix) :
  buildMatrixDiff CSVHeaders ComDetails_String m (mkComMatrix []) =
    (CSVHeaders ++ nl ++ render (map (fun cd => (Plus, cd)) (Matrix m)))%string /\
  buildMatrixDiff CSVHeaders ComDetails_String (mkComMatrix []) m =
    (CSVHeaders ++ nl
     ++ render (map (fun cd => (Minus, cd))
                    (filter (fun cd => negb (String.eqb (Service cd) "rpc.statd"))
                            (Matrix m))))%string.
Proof.
  split; rewrite buildMatrixDiff_render, diffEntries_spec;
    unfold spec_declared_lines, spec_observed_lines; simpl.
  - now rewrite app_nil_r.
  - f_equal. f_equal. f_equal. f_equal. apply filter_ext.
    intros cd. apply andb_true_r.
Qed.

(** X4. After the header the diff has one line per declared record and at
    most one more per observed record. *)
Theorem diffEntries_length (mat1 mat2 : ComMatrix) :
  buildMatrixDiff CSVHeaders ComDetails_String mat1 mat2 =
    (CSVHeaders ++ nl ++ render (diffEntries mat1 mat2))%string /\
  List.length (Matrix mat1) <= List.length (diffEntries mat1 mat2) /\
  List.length (diffEntries mat1 mat2)
    <= List.length (Matrix mat1) + List.length (Matrix mat2).
Proof.
  split; [apply buildMatrixDiff_render|].
  rewrite diffEntries_spec, length_app.
  unfold spec_declared_lines, spec_observed_lines.
  rewrite !length_map.
  pose proof (filter_length_le
                (fun cd => negb (String.eqb (Service cd) "rpc.statd")
                           && negb (Contains mat1 cd)) (Matrix mat2)).
  lia.
Qed.

(** The inline loops of the earlier [main], line by line. *)
Lemma inline_observed_loop_text (mat : ComMatrix) (l : list ComDetails)
      (head : string) (acc : list (Mark * ComDetails)) :
  fold_left (inline_observed_step ComDetails_String mat) l
            (head ++ render acc)%string =
  (head ++ render (fold_left (inline_observed_entry mat) l acc))%string.
Proof.
  revert acc.
  induction l as [|cd l IH]; intros acc; simpl; trivial.
  unfold inline_observed_step, inline_observed_entry.
  destruct (Contains mat cd); simpl; [apply IH|].
  rewrite <- IH, render_app, render_one, append_assoc; reflexivity.
Qed.

Lemma inline_observed_loop_entries (mat : ComMatrix) (l : list ComDetails)
      (acc : list (Mark * ComDetails)) :
  fold_left (inline_observed_entry mat) l acc =
  acc ++ map (fun cd => (Minus, cd))
             (filter (fun cd => negb (Contains mat cd)) l).
Proof.
  revert acc.
  induction l as [|cd l IH]; intros acc; simpl.
  - now rewrite app_nil_r.
  - rewrite IH. unfold inline_observed_entry.
    destruct (Contains mat cd); simpl; trivial.
    now rewrite <- app_assoc.
Qed.

Lemma inline_diff_render (mat ssComMat : ComMatrix) :
  inline_diff ComDetails_String mat ssComMat = render (inline_entries mat ssComMat).
Proof.
  unfold inline_diff, inline_entries.
  pose proof (declared_loop_text ComDetails_String ssComMat (Matrix mat) "" [])
    as Hd.
  simpl in Hd. rewrite Hd.
  pose proof (inline_observed_loop_text mat (Matrix ssComMat) ""
                (fold_left (declared_entry ssComMat) (Matrix mat) [])) as Ho.
  simpl in Ho. exact Ho.
Qed.

Lemma inline_entries_spec (mat ssComMat : ComMatrix) :
  inline_entries mat ssComMat =
  map (fun cd => (if Contains ssComMat cd then Unmarked else Plus, cd)) (Matrix mat)
  ++ map (fun cd => (Minus, cd))
         (filter (fun cd => negb (Contains mat cd)) (Matrix ssComMat)).
Proof.
  unfold inline_entries.
  now rewrite inline_observed_loop_entries, declared_loop_entries.
Qed.

(** X5. The diff that the earlier [main] builds inline has no header: it
    is one line per declared record, in order (unprefixed if the observed
    matrix contains it, with [+] otherwise), then one [-] line per
    observed record that the declared matrix does not contain, whatever
    its service. *)
Theorem inline_diff_lines (mat ssComMat : ComMatrix) :
  inline_diff ComDetails_String mat ssComMat =
  (render (map (fun cd => (if Contains ssComMat cd then Unmarked else Plus, cd))
               (Matrix mat))
   ++ render (map (fun cd => (Minus, cd))
                  (filter (fun cd => negb (Contains mat cd)) (Matrix ssComMat))))%string.
Proof.
  rewrite inline_diff_render.
  rewrite inline_entries_spec.
  apply render_app.
Qed.

End DiffEdges.

Section DiffAcrossVersions.

Import cmd.

Variable CSVHeaders : string.
Variable ComDetails_String : ComDetails -> string.

Lemma keep_declared_lines (mat2 : ComMatrix) (l : list ComDetails) :
  filter (fun en => negb (is_statd_minus en))
         (map (fun cd => (if Contains mat2 cd then Unmarked else Plus, cd)) l) =
  map (fun cd => (if Contains mat2 cd then Unmarked else Plus, cd)) l.
Proof.
  induction l as [|cd l IH]; simpl; trivial.
  rewrite IH. unfold is_statd_minus. simpl.
  destruct (Contains mat2 cd); reflexivity.
Qed.

Lemma drop_statd_minus_lines (mat1 : ComMatrix) (l : list ComDetails) :
  filter (fun en => negb (is_statd_minus en))
         (map (fun cd => (Minus, cd)) (filter (fun cd => negb (Contains mat1 cd)) l)) =
  map (fun cd => (Minus, cd))
      (filter (fun cd => negb (String.eqb (Service cd) "rpc.statd")
                         && negb (Contains mat1 cd)) l).
Proof.
  induction l as [|cd l IH]; simpl; trivial.
  destruct (Contains mat1 cd); simpl.
  - now rewrite andb_false_r.
  - rewrite andb_true_r. unfold is_statd_minus at 1. simpl.
    destruct (String.eqb (Service cd) "rpc.statd"); simpl; now rewrite IH.
Qed.

(** X6. [buildMatrixDiff] writes the header and then the lines of the
    inline loops of the earlier [main] without the [-] lines of
    "rpc.statd" records; when no observed record has that service, its
    output is the header followed by the output of the inline loops. *)
Theorem buildMatrixDiff_vs_inline (mat1 mat2 : ComMatrix) :
  diffEntries mat1 mat2 =
    filter (fun en => negb (is_statd_minus en)) (inline_entries mat1 mat2) /\
  ((forall cd, In cd (Matrix mat2) -> Service cd <> "rpc.statd"%string) ->
   buildMatrixDiff CSVHeaders ComDetails_String mat1 mat2 =
   (CSVHeaders ++ nl ++ inline_diff ComDetails_String mat1 mat2)%string).
Proof.
  assert (diffEntries mat1 mat2 =
          filter (fun en => negb (is_statd_minus en)) (inline_entries mat1 mat2))
    as Hfilter.
  { rewrite diffEntries_spec, inline_entries_spec, filter_app.
    now rewrite keep_declared_lines, drop_statd_minus_lines. }
  split; [exact Hfilter|].
  intros Hnone.
  rewrite buildMatrixDiff_render, inline_diff_render.
  rewrite diffEntries_spec, inline_entries_spec.
  unfold spec_declared_lines, spec_observed_lines.
  do 5 f_equal.
  apply filter_ext_in. intros cd Hin.
  apply Hnone in Hin. apply String.eqb_neq in Hin. now rewrite Hin.
Qed.

End DiffAcrossVersions.

Lemma diff_minus_apart_witness :
  cmd.buildMatrixDiff Scenario.csv_headers Scenario.csv_row
    (mkComMatrix [Scenario.sshd]) (mkComMatrix [Scenario.sshd; Scenario.dhcp]) =
    (Scenario.csv_headers ++ cmd.nl
     ++ cmd.render Scenario.csv_row
          (cmd.diffEntries (mkComMatrix [Scenario.sshd])
                           (mkComMatrix [Scenario.sshd; Scenario.dhcp])))%string /\
  Equals Scenario.sshd Scenario.dhcp = false.
Proof.
  apply (diff_minus_apart Scenario.csv_headers Scenario.csv_row
           (mkComMatrix [Scenario.sshd])
           (mkComMatrix [Scenario.sshd; Scenario.dhcp]) cmd.Unmarked).
  - simpl. left. reflexivity.
  - discriminate.
  - simpl. right. left. reflexivity.
Defined.

Lemma buildMatrixDiff_vs_inline_witness :
  cmd.buildMatrixDiff Scenario.csv_headers Scenario.csv_row
    (mkComMatrix [Scenario.sshd]) (mkComMatrix [Scenario.sshd; Scenario.dhcp]) =
  (Scenario.csv_headers ++ cmd.nl
   ++ cmd.inline_diff Scenario.csv_row
        (mkComMatrix [Scenario.sshd])
        (mkComMatrix [Scenario.sshd; Scenario.dhcp]))%string.
Proof.
  apply (proj2 (buildMatrixDiff_vs_inline Scenario.csv_headers Scenario.csv_row
                  (mkComMatrix [Scenario.sshd])
                  (mkComMatrix [Scenario.sshd; Scenario.dhcp]))).
  intros cd [<-|[<-|[]]]; discriminate.
Defined.

(** ** The catalogue, the loader and the pipeline, continued *)

Section PipelineEdges.

Import commatrix.

Variable tables : Catalogue.
Variable w : World.

(** X7. [getStaticEntries] answers a list exactly for the environments
    Baremetal and AWS, and the error "invalid value for cluster
    environment" for every other value; a deployment that is not SNO is
    treated as MNO. *)
Theorem getStaticEntries_defined (e : Env) (d : Deployment) :
  ((exists entries, getStaticEntries tables e d = Ok entries) <->
   e = Baremetal \/ e = AWS) /\
  (~ (e = Baremetal \/ e = AWS) ->
   getStaticEntries tables e d = Err "invalid value for cluster environment") /\
  (d <> SNO -> getStaticEntries tables e d = getStaticEntries tables e MNO).
Proof.
  assert (d <> SNO -> getStaticEntries tables e d = getStaticEntries tables e MNO)
    as Hmno.
  { intros Hd. apply Z.eqb_neq in Hd.
    unfold getStaticEntries, getStaticEntries_switch. rewrite Hd. simpl.
    destruct (e =? Baremetal)%Z, (e =? AWS)%Z; reflexivity. }
  split; [|split; [|exact Hmno]].
  - split.
    + intros [entries H].
      destruct (Z.eq_dec e Baremetal) as [|Hb]; [now left|].
      destruct (Z.eq_dec e AWS) as [|Ha]; [now right|].
      rewrite (getStaticEntries_invalid_env tables e d Hb Ha) in H. discriminate.
    + destruct (Z.eq_dec d SNO) as [->|Hd].
      * intros [-> | ->]; eexists.
        -- apply getStaticEntries_Baremetal_SNO.
        -- apply getStaticEntries_AWS_SNO.
      * rewrite (Hmno Hd).
        intros [-> | ->]; eexists.
        -- apply getStaticEntries_Baremetal_MNO.
        -- apply getStaticEntries_AWS_MNO.
  - intros H. apply getStaticEntries_invalid_env; intros ->; apply H; auto.
Qed.

(** X8. [addFromFile] opens the file once; when the file does not open,
    nothing else is done and the error names the path; when it opens, it
    is read once and then closed, whatever the reading and the decoding
    give and whatever the format, which is looked at only afterwards. *)
Theorem addFromFile_events (fp : string) (format : Format) (log : list Event) :
  match os_Open w (filepath_Clean w fp) with
  | Ok f =>
      fst (addFromFile w fp format log) =
      log ++ [EvFileOpen fp; EvFileReadAll fp; EvFileClose fp]
  | Err err =>
      addFromFile w fp format log =
      (log ++ [EvFileOpen fp], Err ("failed to open file " ++ fp ++ ": " ++ err))
  | Panic msg =>
      addFromFile w fp format log = (log ++ [EvFileOpen fp], Panic msg)
  end.
Proof.
  unfold addFromFile, bind, on_err, defer, call, pure.
  destruct (os_Open w (filepath_Clean w fp)) as [f|err|msg]; trivial.
  destruct (io_ReadAll w f) as [raw|err|msg];
    destruct (File_Close w f) as [[]|err'|msg'];
    simpl; repeat rewrite <- app_assoc; reflexivity.
Qed.

(** X9. [addFromFile] answers a list only when the file opened and was
    read, and the list is then what the decoder of the format, and no
    other, made of the bytes read; there is no answer for a format that is
    none of the three. *)
Theorem addFromFile_Ok (fp : string) (format : Format) (log log' : list Event)
        (entries : list ComDetails) :
  addFromFile w fp format log = (log', Ok entries) ->
  exists f raw,
    os_Open w (filepath_Clean w fp) = Ok f /\
    io_ReadAll w f = Ok raw /\
    ((format = JSON /\ json_Unmarshal w raw = Ok entries) \/
     (format = YAML /\ yaml_Unmarshal w raw = Ok entries) \/
     (format = CSV /\ gocsv_UnmarshalBytes w raw = Ok entries)).
Proof.
  unfold addFromFile, bind, on_err, defer, call, pure.
  destruct (os_Open w (filepath_Clean w fp)) as [f|err|msg] eqn:Hopen;
    try discriminate.
  destruct (io_ReadAll w f) as [raw|err|msg] eqn:Hread.
  - intros H. exists f, raw. split; [reflexivity|]. split; [exact Hread|].
    assert (decode w format raw = Ok entries) as Hdec.
    { destruct (File_Close w f) as [[]|err'|msg']; simpl in H;
        try discriminate; now injection H. }
    unfold decode in Hdec.
    destruct format.
    + left. split; trivial. destruct (json_Unmarshal w raw); congruence.
    + right. left. split; trivial. destruct (yaml_Unmarshal w raw); congruence.
    + right. right. split; trivial.
      destruct (gocsv_UnmarshalBytes w raw); congruence.
    + discriminate.
  - destruct (File_Close w f) as [[]|err'|msg']; simpl; discriminate.
  - destruct (File_Close w f) as [[]|err'|msg']; simpl; discriminate.
Qed.

(** X10. [New] touches the file system only when a custom path is given,
    the format token is one of "json", "yaml", "csv", and the client, the
    endpoint slices, their translation and the static catalogue have all
    answered before. *)
Theorem New_file_io_only_when
        (kubeconfigPath customEntriesPath customEntriesFormat : string)
        (e : Env) (d : Deployment) (log evs : list Event) (r : result ComMatrix) :
  New tables w kubeconfigPath customEntriesPath customEntriesFormat e d log
    = (log ++ evs, r) ->
  (exists ev, In ev evs /\ is_file_event ev = true) ->
  customEntriesPath <> ""%string /\
  (customEntriesFormat = "json"%string \/ customEntriesFormat = "yaml"%string \/
   customEntriesFormat = "csv"%string) /\
  exists cs eps cluster static,
    client_New w kubeconfigPath = Ok cs /\
    GetIngressEndpointSlicesInfo w cs = Ok eps /\
    ToComDetails w cs eps = Ok cluster /\
    getStaticEntries tables e d = Ok static.
Proof.
  intros Hrun [ev [Hin Hfile]].
  destruct (New_sources_fail tables w kubeconfigPath customEntriesPath
              customEntriesFormat e d log)
    as [(cs & eps & cluster & static & Hcs & Heps & Hcl & Hst)
       | (evs' & r' & Hfail & Hnofile & _)].
  2: { rewrite Hfail in Hrun. injection Hrun as Hlog _.
       apply app_inv_head in Hlog. subst evs'.
       rewrite (Hnofile ev Hin) in Hfile. discriminate. }
  rewrite (New_after_sources tables w kubeconfigPath customEntriesPath
             customEntriesFormat e d log cs eps cluster static
             Hcs Heps Hcl Hst) in Hrun.
  cbv zeta in Hrun.
  assert (evs = cluster_events kubeconfigPath -> False) as Hcontra.
  { intros ->. rewrite (cluster_events_no_file kubeconfigPath ev Hin) in Hfile.
    discriminate. }
  destruct (String.eqb_spec customEntriesPath "") as [Hp|Hp].
  { injection Hrun as Hlog _. apply app_inv_head in Hlog.
    exfalso. now apply Hcontra. }
  split; [exact Hp|].
  destruct (parseFormat customEntriesFormat) as [inputFormat|err|msg] eqn:Hparse.
  - split; [|exists cs, eps, cluster, static; auto].
    apply parseFormat_Ok in Hparse. tauto.
  - injection Hrun as Hlog _. apply app_inv_head in Hlog.
    exfalso. now apply Hcontra.
  - injection Hrun as Hlog _. apply app_inv_head in Hlog.
    exfalso. now apply Hcontra.
Qed.

(** X11. The environment is checked only after the cluster has been
    queried: with an environment that is neither Baremetal nor AWS and a
    cluster that answers, [New] makes its three calls to the cluster and
    then fails with "failed adding static entries: invalid value for
    cluster environment", whatever the other arguments; the custom file is
    not touched. *)
Theorem New_invalid_env
        (kubeconfigPath customEntriesPath customEntriesFormat : string)
        (e : Env) (d : Deployment) (log : list Event)
        (cs : ClientSet w) (eps : list (EndpointSlicesInfo w))
        (cluster : list ComDetails) :
  client_New w kubeconfigPath = Ok cs ->
  GetIngressEndpointSlicesInfo w cs = Ok eps ->
  ToComDetails w cs eps = Ok cluster ->
  e <> Baremetal -> e <> AWS ->
  New tables w kubeconfigPath customEntriesPath customEntriesFormat e d log =
  (log ++ cluster_events kubeconfigPath,
   Err "failed adding static entries: invalid value for cluster environment").
Proof.
  intros Hcs Heps Hcl Hb Ha.
  unfold New, bind, on_err, call, pure, cluster_events.
  rewrite Hcs, Heps, Hcl, (getStaticEntries_invalid_env tables e d Hb Ha).
  simpl. now repeat rewrite <- app_assoc.
Qed.

(** X12. A custom file that does not open is fatal: with a cluster and a
    catalogue that answer, a custom path and a recognized format, [New]
    answers no matrix but the error of [os.Open], wrapped twice, after one
    attempt to open the file. *)
Theorem New_custom_file_does_not_open
        (kubeconfigPath customEntriesPath customEntriesFormat : string)
        (e : Env) (d : Deployment) (log : list Event)
        (cs : ClientSet w) (eps : list (EndpointSlicesInfo w))
        (cluster static : list ComDetails) (inputFormat : Format) (err : error) :
  client_New w kubeconfigPath = Ok cs ->
  GetIngressEndpointSlicesInfo w cs = Ok eps ->
  ToComDetails w cs eps = Ok cluster ->
  getStaticEntries tables e d = Ok static ->
  customEntriesPath <> ""%string ->
  parseFormat customEntriesFormat = Ok inputFormat ->
  os_Open w (filepath_Clean w customEntriesPath) = Err err ->
  New tables w kubeconfigPath customEntriesPath customEntriesFormat e d log =
  (log ++ cluster_events kubeconfigPath ++ [EvFileOpen customEntriesPath],
   Err ("failed adding custom entries: failed to open file "
        ++ customEntriesPath ++ ": " ++ err)).
Proof.
  intros Hcs Heps Hcl Hst Hp Hparse Hopen.
  rewrite (New_after_sources tables w kubeconfigPath customEntriesPath
             customEntriesFormat e d log cs eps cluster static
             Hcs Heps Hcl Hst).
  cbv zeta. apply String.eqb_neq in Hp. rewrite Hp, Hparse.
  pose proof (addFromFile_events customEntriesPath inputFormat
                (log ++ cluster_events kubeconfigPath)) as Hev.
  rewrite Hopen in Hev. rewrite Hev.
  now rewrite <- app_assoc.
Qed.

End PipelineEdges.

Lemma getStaticEntries_defined_witness :
  commatrix.getStaticEntries Scenario.tables commatrix.AWS 7%Z =
  commatrix.getStaticEntries Scenario.tables commatrix.AWS commatrix.MNO.
Proof.
  apply (proj2 (proj2 (getStaticEntries_defined Scenario.tables commatrix.AWS 7%Z))).
  discriminate.
Defined.

Lemma addFromFile_Ok_witness :
  exists f raw,
    commatrix.os_Open Scenario.calm
      (commatrix.filepath_Clean Scenario.calm "custom.json") = Ok f /\
    commatrix.io_ReadAll Scenario.calm f = Ok raw /\
    ((JSON = JSON /\
      commatrix.json_Unmarshal Scenario.calm raw = Ok [Scenario.etcd_custom]) \/
     (JSON = YAML /\
      commatrix.yaml_Unmarshal Scenario.calm raw = Ok [Scenario.etcd_custom]) \/
     (JSON = CSV /\
      commatrix.gocsv_UnmarshalBytes Scenario.calm raw = Ok [Scenario.etcd_custom])).
Proof.
  apply (addFromFile_Ok Scenario.calm "custom.json" JSON []
           Scenario.custom_events [Scenario.etcd_custom]).
  reflexivity.
Defined.

Lemma New_file_io_only_when_witness :
  "custom.json"%string <> ""%string /\
  ("json"%string = "json"%string \/ "json"%string = "yaml"%string \/
   "json"%string = "csv"%string) /\
  exists cs eps cluster static,
    commatrix.client_New Scenario.up "kubeconfig" = Ok cs /\
    commatrix.GetIngressEndpointSlicesInfo Scenario.up cs = Ok eps /\
    commatrix.ToComDetails Scenario.up cs eps = Ok cluster /\
    commatrix.getStaticEntries Scenario.tables commatrix.Baremetal commatrix.MNO
      = Ok static.
Proof.
  apply (New_file_io_only_when Scenario.tables Scenario.up
           "kubeconfig" "custom.json" "json" commatrix.Baremetal commatrix.MNO
           [] (commatrix.cluster_events "kubeconfig" ++ Scenario.custom_events)
           (Ok Scenario.declared)).
  - reflexivity.
  - exists (EvFileOpen "custom.json"). split; [|reflexivity].
    simpl. tauto.
Defined.

Lemma New_invalid_env_witness :
  commatrix.New Scenario.tables Scenario.up "kubeconfig" "custom.json" "json"
                7%Z commatrix.MNO [] =
  ([] ++ commatrix.cluster_events "kubeconfig",
   Err "failed adding static entries: invalid value for cluster environment").
Proof.
  apply (New_invalid_env Scenario.tables Scenario.up
           "kubeconfig" "custom.json" "json" 7%Z commatrix.MNO []
           tt [tt] [Scenario.api_cluster]);
    try reflexivity; discriminate.
Defined.

Lemma New_custom_file_does_not_open_witness :
  commatrix.New Scenario.tables Scenario.locked "kubeconfig" "custom.json" "json"
                commatrix.AWS commatrix.SNO [] =
  ([] ++ commatrix.cluster_events "kubeconfig" ++ [EvFileOpen "custom.json"],
   Err ("failed adding custom entries: failed to open file "
        ++ "custom.json" ++ ": " ++ "permission denied")).
Proof.
  apply (New_custom_file_does_not_open Scenario.tables Scenario.locked
           "kubeconfig" "custom.json" "json" commatrix.AWS commatrix.SNO []
           tt [tt] [Scenario.api_cluster] [Scenario.api_static; Scenario.sshd]
           JSON "permission denied");
    try reflexivity; discriminate.
Defined.

(** ** The firewall rules, continued *)

Section FireWallEdges.

Import commatrix.

Variable w : World.

(** A node task is the creation of the debug pod followed, under the
    deferred cleaning of the pod, by the ten commands. *)
Lemma nodeTask_unfold (cs : ClientSet w) (node : Node w) (tcpPorts udpPorts : string) :
  nodeTask w cs node tcpPorts udpPorts =
  bind (call (EvDebugNew (Node_Name w node))
             (debug_New w cs (Node_Name w node) (DefaultDebugNamespace w)
                        (DefaultDebugPodImage w)))
       (fun debugPod =>
          defer (call (EvDebugClean (Node_Name w node)) (DebugPod_Clean w debugPod))
                (execAll (fun command =>
                            call (EvDebugExec (Node_Name w node) command)
                                 (DebugPod_Exec w debugPod command))
                         (firewallCommands tcpPorts udpPorts))).
Proof. reflexivity. Qed.

Section ExecAll.

Variable ev : string -> Event.
Variable answer : string -> result string.

Local Abbreviation Exec := (fun command => call (ev command) (answer command)).

(** Commands are sent in order up to and including the first that fails. *)
Lemma execAll_run (commands : list string) (log : list Event) :
  exists k,
    k <= List.length commands /\
    (commands <> [] -> 1 <= k) /\
    fst (execAll Exec commands log) = log ++ map ev (firstn k commands) /\
    (forall c, In c (firstn (Nat.pred k) commands) -> exists out, answer c = Ok out) /\
    ((forall c, In c commands -> exists out, answer c = Ok out) ->
     k = List.length commands /\ snd (execAll Exec commands log) = Ok tt) /\
    (snd (execAll Exec commands log) = Ok tt ->
     forall c, In c commands -> exists out, answer c = Ok out).
Proof.
  revert log.
  induction commands as [|c cs IH]; intros log.
  - exists 0. simpl. rewrite app_nil_r.
    repeat split; auto; try contradiction.
  - cbn [execAll]. unfold bind at 1, call at 1.
    destruct (answer c) as [out|err|msg] eqn:Hc.
    + destruct (IH (log ++ [ev c])) as (k & Hk & _ & Hlog & Hbefore & Hall & Hok).
      exists (S k). cbn [List.length firstn map Nat.pred].
      split; [lia|]. split; [lia|].
      split; [rewrite Hlog, <- app_assoc; reflexivity|].
      split; [|split].
      * intros c0 Hin. destruct k as [|k]; [contradiction|].
        cbn [firstn] in Hin. destruct Hin as [<-|Hin]; [eauto|].
        apply Hbefore. exact Hin.
      * intros Hevery.
        destruct (Hall (fun c0 H => Hevery c0 (or_intror H))) as [-> Hres].
        split; [reflexivity | exact Hres].
      * intros Hres c0 [<-|Hin]; [eauto|].
        exact (Hok Hres c0 Hin).
    + exists 1. cbn [List.length firstn map Nat.pred fst snd].
      split; [lia|]. split; [lia|]. split; [reflexivity|].
      split; [contradiction|]. split.
      * intros Hevery. destruct (Hevery c (or_introl eq_refl)) as [out Hout].
        congruence.
      * discriminate.
    + exists 1. cbn [List.length firstn map Nat.pred fst snd].
      split; [lia|]. split; [lia|]. split; [reflexivity|].
      split; [contradiction|]. split.
      * intros Hevery. destruct (Hevery c (or_introl eq_refl)) as [out Hout].
        congruence.
      * discriminate.
Qed.

(** Without a panicking answer there is no panic. *)
Lemma execAll_no_panic (commands : list string) (log : list Event) :
  (forall c msg, answer c <> Panic msg) ->
  forall msg, snd (execAll Exec commands log) <> Panic msg.
Proof.
  intros Hnp. revert log.
  induction commands as [|c cs IH]; intros log msg; [discriminate|].
  cbn [execAll]. unfold bind at 1, call at 1.
  destruct (answer c) as [out|err|msg'] eqn:Hc.
  - apply IH.
  - discriminate.
  - exfalso. exact (Hnp c msg' Hc).
Qed.

End ExecAll.

(** The run of a node task whose debug pod was created. *)
Lemma nodeTask_run (cs : ClientSet w) (node : Node w)
      (tcpPorts udpPorts : string) (debugPod : DebugPod w) (log : list Event) :
  debug_New w cs (Node_Name w node) (DefaultDebugNamespace w)
            (DefaultDebugPodImage w) = Ok debugPod ->
  nodeTask w cs node tcpPorts udpPorts log =
  let run :=
    execAll (fun command =>
               call (EvDebugExec (Node_Name w node) command)
                    (DebugPod_Exec w debugPod command))
            (firewallCommands tcpPorts udpPorts)
            (log ++ [EvDebugNew (Node_Name w node)]) in
  (fst run ++ [EvDebugClean (Node_Name w node)],
   match DebugPod_Clean w debugPod with
   | Panic msg => Panic msg
   | _ => snd run
   end).
Proof.
  intros Hnew. rewrite nodeTask_unfold.
  unfold bind at 1, call at 1. rewrite Hnew. unfold defer.
  cbv zeta.
  destruct (execAll _ _ _) as [log' r]. unfold call. cbn [fst snd].
  destruct (DebugPod_Clean w debugPod) as [[]|err|msg]; reflexivity.
Qed.

(** X13. When the debug pod is created, every command is accepted and the
    cleaning of the pod does not panic, a node task sends the ten commands
    in their fixed order, between the creation and the cleaning of the pod,
    and succeeds. *)
Theorem nodeTask_success (cs : ClientSet w) (node : Node w)
        (tcpPorts udpPorts : string) (debugPod : DebugPod w) (log : list Event) :
  debug_New w cs (Node_Name w node) (DefaultDebugNamespace w)
            (DefaultDebugPodImage w) = Ok debugPod ->
  (forall command, In command (firewallCommands tcpPorts udpPorts) ->
                   exists out, DebugPod_Exec w debugPod command = Ok out) ->
  (forall msg, DebugPod_Clean w debugPod <> Panic msg) ->
  nodeTask w cs node tcpPorts udpPorts log =
  (log ++ EvDebugNew (Node_Name w node)
       :: map (EvDebugExec (Node_Name w node)) (firewallCommands tcpPorts udpPorts)
       ++ [EvDebugClean (Node_Name w node)],
   Ok tt).
Proof.
  intros Hnew Hevery Hclean.
  rewrite (nodeTask_run cs node tcpPorts udpPorts debugPod log Hnew). cbv zeta.
  destruct (execAll_run (EvDebugExec (Node_Name w node))
              (DebugPod_Exec w debugPod) (firewallCommands tcpPorts udpPorts)
              (log ++ [EvDebugNew (Node_Name w node)]))
    as (k & _ & _ & Hlog & _ & Hall & _).
  destruct (Hall Hevery) as [-> Hres].
  rewrite firstn_all in Hlog. rewrite Hlog, Hres.
  repeat rewrite <- app_assoc. cbn [app].
  destruct (DebugPod_Clean w debugPod) as [[]|err|msg]; trivial.
  exfalso. exact (Hclean msg eq_refl).
Qed.

(** The last command sent is the first that was not accepted, unless all
    were. *)
Lemma execAll_stops (ev : string -> Event) (answer : string -> result string)
      (commands : list string) (log : list Event) :
  exists k,
    k <= List.length commands /\
    (commands <> [] -> 1 <= k) /\
    fst (execAll (fun command => call (ev command) (answer command)) commands log)
      = log ++ map ev (firstn k commands) /\
    (forall c, In c (firstn (Nat.pred k) commands) -> exists out, answer c = Ok out) /\
    ((forall c, In c commands -> exists out, answer c = Ok out) ->
     k = List.length commands) /\
    (snd (execAll (fun command => call (ev command) (answer command)) commands log)
       = Ok tt ->
     forall c, In c commands -> exists out, answer c = Ok out) /\
    ((forall c, In c commands -> exists out, answer c = Ok out) \/
     exists c,
       nth_error commands (Nat.pred k) = Some c /\
       (forall out, answer c <> Ok out) /\
       snd (execAll (fun command => call (ev command) (answer command)) commands log)
         = match answer c with
           | Ok _ => Ok tt
           | Err err => Err err
           | Panic msg => Panic msg
           end).
Proof.
  revert log.
  induction commands as [|c cs IH]; intros log.
  - exists 0. simpl. rewrite app_nil_r.
    repeat split; auto; try contradiction.
    left. contradiction.
  - cbn [execAll]. unfold bind at 1 2 3, call at 1 3 5.
    destruct (answer c) as [out|err|msg] eqn:Hc.
    + destruct (IH (log ++ [ev c]))
        as (k & Hk & Hk1 & Hlog & Hbefore & Hall & Hok & Hlast).
      exists (S k). cbn [List.length firstn map Nat.pred].
      split; [lia|]. split; [lia|].
      split; [rewrite Hlog, <- app_assoc; reflexivity|].
      split; [|split; [|split]].
      * intros c0 Hin. destruct k as [|k]; [contradiction|].
        cbn [firstn] in Hin. destruct Hin as [<-|Hin]; [eauto|].
        apply Hbefore. exact Hin.
      * intros Hevery.
        now rewrite (Hall (fun c0 H => Hevery c0 (or_intror H))).
      * intros Hres c0 [<-|Hin]; [eauto|].
        exact (Hok Hres c0 Hin).
      * destruct Hlast as [Hevery|(c0 & Hnth & Hnot & Hres)].
        -- left. intros c1 [<-|Hin]; [eauto | auto].
        -- right. exists c0.
           destruct cs as [|c1 cs']; [destruct (Nat.pred k); discriminate|].
           assert (1 <= k) as Hpos by (apply Hk1; discriminate).
           destruct k as [|k]; [lia|].
           cbn [Nat.pred nth_error] in *. auto.
    + exists 1. cbn [List.length firstn map Nat.pred fst snd nth_error].
      split; [lia|]. split; [lia|]. split; [reflexivity|].
      split; [contradiction|]. split; [|split].
      * intros Hevery. destruct (Hevery c (or_introl eq_refl)) as [out Hout].
        congruence.
      * discriminate.
      * right. exists c. rewrite Hc.
        split; [reflexivity|]. split; [congruence | reflexivity].
    + exists 1. cbn [List.length firstn map Nat.pred fst snd nth_error].
      split; [lia|]. split; [lia|]. split; [reflexivity|].
      split; [contradiction|]. split; [|split].
      * intros Hevery. destruct (Hevery c (or_introl eq_refl)) as [out Hout].
        congruence.
      * discriminate.
      * right. exists c. rewrite Hc.
        split; [reflexivity|]. split; [congruence | reflexivity].
Qed.

(** X14. A node task whose debug pod cannot be created does nothing else
    and does not succeed.  Otherwise it sends the commands in their fixed
    order up to and including the first that fails, and then cleans the
    pod, on every path: the commands before the last one sent were
    accepted, and the last one sent was not, unless all ten were; with a
    command that was not accepted the task answers that command's error
    (a panic of the command or of the cleaning is passed on); it succeeds
    only if every command was accepted. *)
Theorem nodeTask_events (cs : ClientSet w) (node : Node w)
        (tcpPorts udpPorts : string) (log : list Event) :
  match debug_New w cs (Node_Name w node) (DefaultDebugNamespace w)
                  (DefaultDebugPodImage w) with
  | Ok debugPod =>
      exists k,
        1 <= k <= 10 /\
        fst (nodeTask w cs node tcpPorts udpPorts log) =
          log ++ EvDebugNew (Node_Name w node)
              :: map (EvDebugExec (Node_Name w node))
                     (firstn k (firewallCommands tcpPorts udpPorts))
              ++ [EvDebugClean (Node_Name w node)] /\
        (forall command,
            In command (firstn (Nat.pred k) (firewallCommands tcpPorts udpPorts)) ->
            exists out, DebugPod_Exec w debugPod command = Ok out) /\
        (snd (nodeTask w cs node tcpPorts udpPorts log) = Ok tt ->
         k = 10 /\
         forall command, In command (firewallCommands tcpPorts udpPorts) ->
                         exists out, DebugPod_Exec w debugPod command = Ok out) /\
        ((forall command, In command (firewallCommands tcpPorts udpPorts) ->
                          exists out, DebugPod_Exec w debugPod command = Ok out) ->
         k = 10) /\
        (k < 10 ->
         exists command,
           nth_error (firewallCommands tcpPorts udpPorts) (Nat.pred k)
             = Some command /\
           forall out, DebugPod_Exec w debugPod command <> Ok out) /\
        ((forall command, In command (firewallCommands tcpPorts udpPorts) ->
                          exists out, DebugPod_Exec w debugPod command = Ok out) \/
         exists command,
           nth_error (firewallCommands tcpPorts udpPorts) (Nat.pred k)
             = Some command /\
           (forall out, DebugPod_Exec w debugPod command <> Ok out) /\
           snd (nodeTask w cs node tcpPorts udpPorts log) =
             match DebugPod_Clean w debugPod with
             | Panic msg => Panic msg
             | _ =>
                 match DebugPod_Exec w debugPod command with
                 | Ok _ => Ok tt
                 | Err err => Err err
                 | Panic msg => Panic msg
                 end
             end)
  | Err err =>
      nodeTask w cs node tcpPorts udpPorts log =
      (log ++ [EvDebugNew (Node_Name w node)], Err err)
  | Panic msg =>
      nodeTask w cs node tcpPorts udpPorts log =
      (log ++ [EvDebugNew (Node_Name w node)], Panic msg)
  end.
Proof.
  destruct (debug_New w cs (Node_Name w node) (DefaultDebugNamespace w)
                      (DefaultDebugPodImage w)) as [debugPod|err|msg] eqn:Hnew.
  2,3: rewrite nodeTask_unfold; unfold bind at 1, call at 1;
       rewrite Hnew; reflexivity.
  rewrite (nodeTask_run cs node tcpPorts udpPorts debugPod log Hnew). cbv zeta.
  destruct (execAll_stops (EvDebugExec (Node_Name w node))
              (DebugPod_Exec w debugPod) (firewallCommands tcpPorts udpPorts)
              (log ++ [EvDebugNew (Node_Name w node)]))
    as (k & Hk & Hk1 & Hlog & Hbefore & Hall & Hok & Hlast).
  exists k.
  split; [split; [apply Hk1; discriminate | exact Hk]|].
  cbn [fst snd]. rewrite Hlog.
  split; [repeat rewrite <- app_assoc; reflexivity|].
  split; [exact Hbefore|].
  split; [|split; [exact Hall|split]].
  - intros Hres.
    assert (snd (execAll (fun command =>
                            call (EvDebugExec (Node_Name w node) command)
                                 (DebugPod_Exec w debugPod command))
                         (firewallCommands tcpPorts udpPorts)
                         (log ++ [EvDebugNew (Node_Name w node)])) = Ok tt) as Hr
        by (destruct (DebugPod_Clean w debugPod) as [[]|err|msg]; congruence).
    pose proof (Hok Hr) as Hevery.
    split; [exact (Hall Hevery) | exact Hevery].
  - intros Hlt.
    destruct Hlast as [Hevery|(c & Hnth & Hnot & _)].
    + pose proof (Hall Hevery) as Hten. cbn [List.length firewallCommands] in Hten.
      lia.
    + exists c. split; assumption.
  - destruct Hlast as [Hevery|(c & Hnth & Hnot & Hres)]; [now left|].
    right. exists c. split; [exact Hnth|]. split; [exact Hnot|].
    rewrite Hres. reflexivity.
Qed.

(** Every event of a node task concerns its node, the first one is the
    creation of the debug pod, and without a panicking collaborator the
    task does not panic. *)
Lemma nodeTask_extends (cs : ClientSet w) (node : Node w)
      (tcpPorts udpPorts : string) (log : list Event) :
  exists evs r,
    nodeTask w cs node tcpPorts udpPorts log =
      (log ++ EvDebugNew (Node_Name w node) :: evs, r) /\
    (forall ev, In ev evs -> event_node ev = Some (Node_Name w node)) /\
    ((forall name msg,
         debug_New w cs name (DefaultDebugNamespace w) (DefaultDebugPodImage w)
         <> Panic msg) ->
     (forall pod command msg, DebugPod_Exec w pod command <> Panic msg) ->
     (forall pod msg, DebugPod_Clean w pod <> Panic msg) ->
     forall msg, r <> Panic msg).
Proof.
  destruct (debug_New w cs (Node_Name w node) (DefaultDebugNamespace w)
                      (DefaultDebugPodImage w)) as [debugPod|err|msg] eqn:Hnew.
  - rewrite (nodeTask_run cs node tcpPorts udpPorts debugPod log Hnew). cbv zeta.
    destruct (execAll_run (EvDebugExec (Node_Name w node))
                (DebugPod_Exec w debugPod) (firewallCommands tcpPorts udpPorts)
                (log ++ [EvDebugNew (Node_Name w node)]))
      as (k & _ & _ & Hlog & _).
    rewrite Hlog.
    eexists. eexists. split.
    { repeat rewrite <- app_assoc. cbn [app]. reflexivity. }
    split.
    + intros ev Hin. apply in_app_or in Hin as [Hin|[<-|[]]]; [|reflexivity].
      apply in_map_iff in Hin as [c [<- _]]. reflexivity.
    + intros _ Hexec Hclean msg.
      destruct (DebugPod_Clean w debugPod) as [[]|err|msg'] eqn:Hc.
      * apply execAll_no_panic. apply Hexec.
      * apply execAll_no_panic. apply Hexec.
      * exfalso. exact (Hclean debugPod msg' Hc).
  - exists [], (Err err). split.
    { rewrite nodeTask_unfold. unfold bind at 1, call at 1.
      rewrite Hnew. reflexivity. }
    split; [contradiction | discriminate].
  - exists [], (Panic msg). split.
    { rewrite nodeTask_unfold. unfold bind at 1, call at 1.
      rewrite Hnew. reflexivity. }
    split; [contradiction|].
    intros Hn _ _ msg' _. exact (Hn (Node_Name w node) msg Hnew).
Qed.

(** Waiting for tasks that each concern one node: every event concerns
    the node of one of the tasks, every task has created its debug pod
    unless a panic came first, and without a panicking collaborator there
    is no panic. *)
Lemma errgroup_Wait_nodeTasks (cs : ClientSet w) (tcpPorts udpPorts : string)
      (nodes : list (Node w)) (log : list Event) :
  exists evs r,
    errgroup_Wait (map (fun node => nodeTask w cs node tcpPorts udpPorts) nodes) log
      = (log ++ evs, r) /\
    (forall ev, In ev evs ->
       exists node, In node nodes /\ event_node ev = Some (Node_Name w node)) /\
    ((forall name msg,
         debug_New w cs name (DefaultDebugNamespace w) (DefaultDebugPodImage w)
         <> Panic msg) ->
     (forall pod command msg, DebugPod_Exec w pod command <> Panic msg) ->
     (forall pod msg, DebugPod_Clean w pod <> Panic msg) ->
     (forall msg, r <> Panic msg) /\
     (forall node, In node nodes -> In (EvDebugNew (Node_Name w node)) evs)).
Proof.
  revert log.
  induction nodes as [|node nodes IH]; intros log.
  - exists [], (Ok tt). simpl. rewrite app_nil_r.
    split; [reflexivity|]. split; [contradiction|].
    intros _ _ _. split; [discriminate | contradiction].
  - cbn [map errgroup_Wait].
    destruct (nodeTask_extends cs node tcpPorts udpPorts log)
      as (evs1 & r1 & Hrun & Hnode & Hnp1).
    rewrite Hrun.
    destruct (IH (log ++ EvDebugNew (Node_Name w node) :: evs1))
      as (evs2 & r2 & Hrest & Hnodes & Hnp2).
    assert (forall ev,
               In ev (EvDebugNew (Node_Name w node) :: evs1) ->
               exists node0, In node0 (node :: nodes) /\
                             event_node ev = Some (Node_Name w node0)) as Hfirst.
    { intros ev [<-|Hin]; exists node; split; simpl; auto. }
    destruct r1 as [[]|err1|msg1].
    + rewrite Hrest.
      exists ((EvDebugNew (Node_Name w node) :: evs1) ++ evs2).
      exists r2. split.
      { destruct r2; rewrite <- app_assoc; reflexivity. }
      split.
      * intros ev Hin. apply in_app_or in Hin as [Hin|Hin]; [auto|].
        destruct (Hnodes ev Hin) as [n [Hn He]]. exists n. split; simpl; auto.
      * intros H1 H2 H3. destruct (Hnp2 H1 H2 H3) as [Hr2 Hall].
        split; [exact Hr2|].
        intros n [<-|Hn]; apply in_or_app; [left; now left | right; auto].
    + rewrite Hrest.
      exists ((EvDebugNew (Node_Name w node) :: evs1) ++ evs2).
      exists (match r2 with Panic msg => Panic msg | _ => Err err1 end). split.
      { destruct r2; rewrite <- app_assoc; reflexivity. }
      split.
      * intros ev Hin. apply in_app_or in Hin as [Hin|Hin]; [auto|].
        destruct (Hnodes ev Hin) as [n [Hn He]]. exists n. split; simpl; auto.
      * intros H1 H2 H3. destruct (Hnp2 H1 H2 H3) as [Hr2 Hall].
        split.
        { intros msg. destruct r2 as [[]|err2|msg2]; try discriminate.
          exfalso. exact (Hr2 msg2 eq_refl). }
        intros n [<-|Hn]; apply in_or_app; [left; now left | right; auto].
    + exists (EvDebugNew (Node_Name w node) :: evs1), (Panic msg1).
      split; [reflexivity|]. split; [exact Hfirst|].
      intros H1 H2 H3. exfalso. exact (Hnp1 H1 H2 H3 msg1 eq_refl).
Qed.

(** X15. [ApplyFireWallRules] touches the nodes of the target role only:
    after the listing of the nodes, every event of its second half is the
    creation of a debug pod on a listed node of that role, a command sent
    to it, or its cleaning. *)
Theorem applyToNodes_only_role (cs : ClientSet w) (role tcpPorts udpPorts : string)
        (nodesList : list (Node w)) (log : list Event) :
  Nodes_List w cs = Ok nodesList ->
  exists evs,
    fst (applyToNodes w cs role tcpPorts udpPorts log) = log ++ EvNodesList :: evs /\
    forall ev, In ev evs ->
      exists node,
        In node nodesList /\ GetRole w node = role /\
        event_node ev = Some (Node_Name w node).
Proof.
  intros Hlist.
  unfold applyToNodes, bind, panic_on_err, call. rewrite Hlist.
  destruct (errgroup_Wait_nodeTasks cs tcpPorts udpPorts
              (filter (fun node => String.eqb (GetRole w node) role) nodesList)
              (log ++ [EvNodesList]))
    as (evs & r & Hrun & Hnodes & _).
  rewrite Hrun. exists evs. cbn [fst].
  split; [now rewrite <- app_assoc|].
  intros ev Hin. destruct (Hnodes ev Hin) as [node [Hnode He]].
  apply filter_In in Hnode as [Hnode Hrole].
  apply String.eqb_eq in Hrole. eauto.
Qed.

(** X16. Barring panics, a failure on one node stops nothing on the
    others: when the nodes are listed and no collaborator panics, a debug
    pod is asked for on every listed node of the target role, whatever
    the tasks of the other nodes have answered, and the outcome is an
    error or a success, never a panic. *)
Theorem applyToNodes_every_role_node (cs : ClientSet w)
        (role tcpPorts udpPorts : string)
        (nodesList : list (Node w)) (log : list Event) :
  Nodes_List w cs = Ok nodesList ->
  (forall name msg,
      debug_New w cs name (DefaultDebugNamespace w) (DefaultDebugPodImage w)
      <> Panic msg) ->
  (forall pod command msg, DebugPod_Exec w pod command <> Panic msg) ->
  (forall pod msg, DebugPod_Clean w pod <> Panic msg) ->
  (forall msg, snd (applyToNodes w cs role tcpPorts udpPorts log) <> Panic msg) /\
  forall node,
    In node nodesList -> GetRole w node = role ->
    In (EvDebugNew (Node_Name w node))
       (fst (applyToNodes w cs role tcpPorts udpPorts log)).
Proof.
  intros Hlist H1 H2 H3.
  unfold applyToNodes, bind, panic_on_err, call. rewrite Hlist.
  destruct (errgroup_Wait_nodeTasks cs tcpPorts udpPorts
              (filter (fun node => String.eqb (GetRole w node) role) nodesList)
              (log ++ [EvNodesList]))
    as (evs & r & Hrun & _ & Hnp).
  rewrite Hrun. cbn [fst snd].
  destruct (Hnp H1 H2 H3) as [Hr Hall].
  split; [exact Hr|].
  intros node Hin Hrole.
  apply in_or_app. right. apply Hall.
  apply filter_In. split; [exact Hin|].
  now apply String.eqb_eq.
Qed.

(** X17. With a TCP and a UDP port for the role: when the nodes cannot be
    listed, [ApplyFireWallRules] does not return the error but panics with
    it, and no node is touched; when no listed node has the role, it
    succeeds without sending a command. *)
Theorem ApplyFireWallRules_no_node (cs : ClientSet w) (m : ComMatrix)
        (role : string) (log : list Event) :
  portsOf "TCP" m role <> [] ->
  portsOf "UDP" m role <> [] ->
  (forall err, Nodes_List w cs = Err err ->
     ApplyFireWallRules w cs m role log = (log ++ [EvNodesList], Panic err)) /\
  (forall nodesList,
     Nodes_List w cs = Ok nodesList ->
     (forall node, In node nodesList -> GetRole w node <> role) ->
     ApplyFireWallRules w cs m role log = (log ++ [EvNodesList], Ok tt)).
Proof.
  intros Htcp Hudp.
  rewrite ApplyFireWallRules_cases.
  destruct (portsOf "TCP" m role) as [|p ps]; [congruence|].
  destruct (portsOf "UDP" m role) as [|q qs]; [congruence|].
  unfold applyToNodes, bind, panic_on_err, call.
  split.
  - intros err ->. reflexivity.
  - intros nodesList -> Hnone.
    assert (filter (fun node => String.eqb (GetRole w node) role) nodesList = [])
      as ->.
    { induction nodesList as [|node l IH]; trivial. simpl.
      destruct (String.eqb_spec (GetRole w node) role) as [Hr|Hr].
      - exfalso. exact (Hnone node (or_introl eq_refl) Hr).
      - apply IH. intros n Hn. apply Hnone. now right. }
    reflexivity.
Qed.

Lemma filter_twice (A : Type) (f g : A -> bool) (l : list A) :
  filter f (filter g l) = filter (fun x => g x && f x) l.
Proof.
  induction l as [|x l IH]; trivial. simpl.
  destruct (g x); simpl; [destruct (f x)|]; now rewrite IH.
Qed.

Lemma portsOf_relevant (protocol role : string) (m : ComMatrix) :
  protocol = "TCP"%string \/ protocol = "UDP"%string ->
  portsOf protocol
          (mkComMatrix
             (filter (fun cd => String.eqb (NodeRole cd) role
                                && (String.eqb (Protocol cd) "TCP"
                                    || String.eqb (Protocol cd) "UDP"))
                     (Matrix m))) role =
  portsOf protocol m role.
Proof.
  intros Hp. unfold portsOf. cbn [Matrix]. f_equal.
  rewrite filter_twice. apply filter_ext. intros cd.
  destruct (String.eqb (NodeRole cd) role); cbn [andb]; trivial.
  destruct (String.eqb_spec (Protocol cd) protocol) as [He|He].
  - rewrite He. destruct Hp as [-> | ->]; reflexivity.
  - apply andb_false_r.
Qed.

(** X18. [ApplyFireWallRules] reads of the matrix only the ports of the
    records of the target role on "TCP" and "UDP": with every other record
    taken out of the matrix it does the same, event for event. *)
Theorem ApplyFireWallRules_relevant_records (cs : ClientSet w) (m : ComMatrix)
        (role : string) (log : list Event) :
  ApplyFireWallRules w cs
    (mkComMatrix
       (filter (fun cd => String.eqb (NodeRole cd) role
                          && (String.eqb (Protocol cd) "TCP"
                              || String.eqb (Protocol cd) "UDP"))
               (Matrix m)))
    role log =
  ApplyFireWallRules w cs m role log.
Proof.
  rewrite !ApplyFireWallRules_cases.
  rewrite (portsOf_relevant "TCP" role m (or_introl eq_refl)).
  rewrite (portsOf_relevant "UDP" role m (or_intror eq_refl)).
  reflexivity.
Qed.

End FireWallEdges.

(** ** The head of [main] *)

Section MainFacts.

Import commatrix cmd.

Variable tables : Catalogue.
Variable w : World.

(** With accepted flags, the head of [main] is the call of [New], whose
    error becomes a panic. *)
Lemma main_valid_run (flags : Flags) (kubeconfig : string) (log : list Event)
      (printFn : Printer) (env : Env) (deployment : Deployment) :
  (format flags = "json"%string /\ printFn = ToJSON) \/
  (format flags = "csv"%string /\ printFn = ToCSV) \/
  (format flags = "yaml"%string /\ printFn = ToYAML) ->
  (envStr flags = "baremetal"%string /\ env = Baremetal) \/
  (envStr flags = "aws"%string /\ env = AWS) ->
  (deploymentStr flags = "mno"%string /\ deployment = MNO) \/
  (deploymentStr flags = "sno"%string /\ deployment = SNO) ->
  customEntriesPath flags = ""%string \/ customEntriesFormat flags <> ""%string ->
  main_declared_matrix tables w flags (Some kubeconfig) log =
  match New tables w kubeconfig (customEntriesPath flags)
            (customEntriesFormat flags) env deployment log with
  | (log', Ok mat) => (log', Ok (printFn, mat))
  | (log', Err err) =>
      (log', Panic ("failed to create the communication matrix: " ++ err))
  | (log', Panic msg) => (log', Panic msg)
  end.
Proof.
  intros Hf He Hd Hc.
  assert ((negb (String.eqb (customEntriesPath flags) "")
           && String.eqb (customEntriesFormat flags) "") = false) as Hcheck.
  { destruct Hc as [Hp|Hcf].
    - rewrite Hp. reflexivity.
    - apply String.eqb_neq in Hcf. rewrite Hcf. apply andb_false_r. }
  unfold main_declared_matrix. rewrite Hcheck.
  destruct Hf as [[Hf ->]|[[Hf ->]|[Hf ->]]];
    destruct He as [[He ->]|[He ->]];
    destruct Hd as [[Hd ->]|[Hd ->]];
    rewrite Hf, He, Hd; cbn [String.eqb Ascii.eqb Bool.eqb];
    unfold bind, ret, panic_with;
    destruct (New tables w kubeconfig _ _ _ _ log) as [log' [mat|err|msg]];
    reflexivity.
Qed.

(** X19. Before it has the declared matrix, [main] either panics on its
    flags without having done anything (an output format that is none of
    "json", "csv", "yaml", no KUBECONFIG, an environment that is neither
    "baremetal" nor "aws", a deployment that is neither "mno" nor "sno", or
    a custom path without a custom format), or it calls [New] with the
    environment and the deployment that the flags name, for which the
    static catalogue has an answer, and turns an error of [New] into a
    panic. *)
Theorem main_declared_matrix_cases (flags : Flags) (KUBECONFIG : option string)
      (log : list Event) :
  ((~ In (format flags) ["json"; "csv"; "yaml"]%string \/
    KUBECONFIG = None \/
    ~ In (envStr flags) ["baremetal"; "aws"]%string \/
    ~ In (deploymentStr flags) ["mno"; "sno"]%string \/
    (customEntriesPath flags <> ""%string /\ customEntriesFormat flags = ""%string)) /\
   exists msg, main_declared_matrix tables w flags KUBECONFIG log = (log, Panic msg)) \/
  (exists printFn kubeconfig env deployment static,
      KUBECONFIG = Some kubeconfig /\
      ((format flags = "json"%string /\ printFn = ToJSON) \/
       (format flags = "csv"%string /\ printFn = ToCSV) \/
       (format flags = "yaml"%string /\ printFn = ToYAML)) /\
      ((envStr flags = "baremetal"%string /\ env = Baremetal) \/
       (envStr flags = "aws"%string /\ env = AWS)) /\
      ((deploymentStr flags = "mno"%string /\ deployment = MNO) \/
       (deploymentStr flags = "sno"%string /\ deployment = SNO)) /\
      (customEntriesPath flags = ""%string \/ customEntriesFormat flags <> ""%string) /\
      getStaticEntries tables env deployment = Ok static /\
      main_declared_matrix tables w flags KUBECONFIG log =
      match New tables w kubeconfig (customEntriesPath flags)
                (customEntriesFormat flags) env deployment log with
      | (log', Ok mat) => (log', Ok (printFn, mat))
      | (log', Err err) =>
          (log', Panic ("failed to create the communication matrix: " ++ err))
      | (log', Panic msg) => (log', Panic msg)
      end).
Proof.
  assert (forall env deployment,
             env = Baremetal \/ env = AWS -> deployment = MNO \/ deployment = SNO ->
             exists static, getStaticEntries tables env deployment = Ok static)
    as Hstatic.
  { intros env deployment [-> | ->] [-> | ->]; eexists.
    - apply getStaticEntries_Baremetal_MNO.
    - apply getStaticEntries_Baremetal_SNO.
    - apply getStaticEntries_AWS_MNO.
    - apply getStaticEntries_AWS_SNO. }
  assert ((exists printFn,
              (format flags = "json"%string /\ printFn = ToJSON) \/
              (format flags = "csv"%string /\ printFn = ToCSV) \/
              (format flags = "yaml"%string /\ printFn = ToYAML)) \/
          (format flags <> "json"%string /\ format flags <> "csv"%string /\
           format flags <> "yaml"%string)) as [[printFn Hf]|(Hj & Hc & Hy)].
  { destruct (string_dec (format flags) "json"); [left; exists ToJSON; auto|].
    destruct (string_dec (format flags) "csv"); [left; exists ToCSV; auto|].
    destruct (string_dec (format flags) "yaml"); [left; exists ToYAML; auto|].
    right. auto. }
  2: { left. split; [left; intros [H|[H|[H|[]]]]; congruence|].
       unfold main_declared_matrix.
       apply String.eqb_neq in Hj, Hc, Hy. rewrite Hj, Hc, Hy.
       eexists. reflexivity. }
  assert (forall A (k : Printer -> Go A),
             bind (if String.eqb (format flags) "json" then ret ToJSON
                   else if String.eqb (format flags) "csv" then ret ToCSV
                   else if String.eqb (format flags) "yaml" then ret ToYAML
                   else go_panic ("invalid format: " ++ format flags
                                  ++ ". Please specify json, csv, or yaml.")%string)
                  k log = k printFn log) as Hfmt.
  { intros A k. destruct Hf as [[Hf ->]|[[Hf ->]|[Hf ->]]]; rewrite Hf; reflexivity. }
  destruct KUBECONFIG as [kubeconfig|].
  2: { left. split; [right; left; reflexivity|].
       unfold main_declared_matrix. rewrite Hfmt. eexists. reflexivity. }
  assert ((exists env,
              (envStr flags = "baremetal"%string /\ env = Baremetal) \/
              (envStr flags = "aws"%string /\ env = AWS)) \/
          (envStr flags <> "baremetal"%string /\ envStr flags <> "aws"%string))
    as [[env He]|(Hb & Ha)].
  { destruct (string_dec (envStr flags) "baremetal"); [left; exists Baremetal; auto|].
    destruct (string_dec (envStr flags) "aws"); [left; exists AWS; auto|].
    right. auto. }
  2: { left. split; [right; right; left; intros [H|[H|[]]]; congruence|].
       unfold main_declared_matrix. rewrite Hfmt.
       apply String.eqb_neq in Hb, Ha.
       unfold bind, ret. rewrite Hb, Ha. eexists. reflexivity. }
  assert ((exists deployment,
              (deploymentStr flags = "mno"%string /\ deployment = MNO) \/
              (deploymentStr flags = "sno"%string /\ deployment = SNO)) \/
          (deploymentStr flags <> "mno"%string /\ deploymentStr flags <> "sno"%string))
    as [[deployment Hd]|(Hm & Hs)].
  { destruct (string_dec (deploymentStr flags) "mno"); [left; exists MNO; auto|].
    destruct (string_dec (deploymentStr flags) "sno"); [left; exists SNO; auto|].
    right. auto. }
  2: { left. split; [right; right; right; left; intros [H|[H|[]]]; congruence|].
       unfold main_declared_matrix. rewrite Hfmt.
       apply String.eqb_neq in Hm, Hs.
       unfold bind, ret. rewrite Hm, Hs.
       destruct He as [[He _]|[He _]]; rewrite He; eexists; reflexivity. }
  destruct (string_dec (customEntriesPath flags) "") as [Hp|Hp].
  2: destruct (string_dec (customEntriesFormat flags) "") as [Hcf|Hcf].
  2: { left. split; [right; right; right; right; split; assumption|].
       unfold main_declared_matrix. rewrite Hfmt.
       apply String.eqb_neq in Hp. unfold bind, ret. rewrite Hp, Hcf.
       destruct He as [[He _]|[He _]], Hd as [[Hd _]|[Hd _]];
         rewrite He, Hd; eexists; reflexivity. }
  all: right.
  all: destruct (Hstatic env deployment) as [static Hst];
    [tauto | tauto |].
  all: exists printFn, kubeconfig, env, deployment, static.
  all: split; [reflexivity|].
  all: split; [exact Hf|].
  all: split; [exact He|].
  all: split; [exact Hd|].
  all: split; [tauto|].
  all: split; [exact Hst|].
  all: apply main_valid_run; tauto.
Qed.

(** X20. [main] checks of the custom format only that it is not empty: an
    unrecognized token passes, and is refused by [New] only after the
    cluster has answered its three calls; [main] then panics. *)
Theorem main_rejects_format_late (flags : Flags) (kubeconfig : string)
        (log : list Event) (cs : ClientSet w) (eps : list (EndpointSlicesInfo w))
        (cluster : list ComDetails) :
  In (format flags) ["json"; "csv"; "yaml"]%string ->
  In (envStr flags) ["baremetal"; "aws"]%string ->
  In (deploymentStr flags) ["mno"; "sno"]%string ->
  customEntriesPath flags <> ""%string ->
  customEntriesFormat flags <> ""%string ->
  customEntriesFormat flags <> "json"%string ->
  customEntriesFormat flags <> "yaml"%string ->
  customEntriesFormat flags <> "csv"%string ->
  client_New w kubeconfig = Ok cs ->
  GetIngressEndpointSlicesInfo w cs = Ok eps ->
  ToComDetails w cs eps = Ok cluster ->
  main_declared_matrix tables w flags (Some kubeconfig) log =
  (log ++ cluster_events kubeconfig,
   Panic ("failed to create the communication matrix: "
          ++ UnsupportedFormat (customEntriesFormat flags))).
Proof.
  intros Hf He Hd Hp Hne Hj Hy Hc Hcs Heps Hcl.
  assert (exists printFn,
             (format flags = "json"%string /\ printFn = ToJSON) \/
             (format flags = "csv"%string /\ printFn = ToCSV) \/
             (format flags = "yaml"%string /\ printFn = ToYAML)) as [printFn Hf'].
  { destruct Hf as [H|[H|[H|[]]]]; symmetry in H;
      [exists ToJSON | exists ToCSV | exists ToYAML]; auto. }
  assert (exists env static,
             ((envStr flags = "baremetal"%string /\ env = Baremetal) \/
              (envStr flags = "aws"%string /\ env = AWS)) /\
             exists deployment,
               ((deploymentStr flags = "mno"%string /\ deployment = MNO) \/
                (deploymentStr flags = "sno"%string /\ deployment = SNO)) /\
               getStaticEntries tables env deployment = Ok static)
    as (env & static & He' & deployment & Hd' & Hst).
  { destruct He as [H|[H|[]]], Hd as [H'|[H'|[]]]; symmetry in H, H'.
    - exists Baremetal. eexists. split; [auto|]. exists MNO. split; [auto|].
      apply getStaticEntries_Baremetal_MNO.
    - exists Baremetal. eexists. split; [auto|]. exists SNO. split; [auto|].
      apply getStaticEntries_Baremetal_SNO.
    - exists AWS. eexists. split; [auto|]. exists MNO. split; [auto|].
      apply getStaticEntries_AWS_MNO.
    - exists AWS. eexists. split; [auto|]. exists SNO. split; [auto|].
      apply getStaticEntries_AWS_SNO. }
  rewrite (main_valid_run flags kubeconfig log printFn env deployment
             Hf' He' Hd' (or_intror Hne)).
  rewrite (New_after_sources tables w kubeconfig (customEntriesPath flags)
             (customEntriesFormat flags) env deployment log cs eps cluster static
             Hcs Heps Hcl Hst).
  cbv zeta. apply String.eqb_neq in Hp. rewrite Hp.
  rewrite (parseFormat_unrecognized (customEntriesFormat flags) Hj Hy Hc).
  reflexivity.
Qed.

End MainFacts.

Lemma main_rejects_format_late_witness :
  cmd.main_declared_matrix Scenario.tables Scenario.up
    (Scenario.flags "csv" "baremetal" "mno" "custom.xml" "xml")
    (Some "kubeconfig"%string) [] =
  ([] ++ commatrix.cluster_events "kubeconfig",
   Panic ("failed to create the communication matrix: "
          ++ commatrix.UnsupportedFormat "xml")).
Proof.
  apply (main_rejects_format_late Scenario.tables Scenario.up
           (Scenario.flags "csv" "baremetal" "mno" "custom.xml" "xml")
           "kubeconfig" [] tt [tt] [Scenario.api_cluster]);
    try reflexivity; try discriminate; simpl; tauto.
Defined.

Lemma nodeTask_success_witness :
  commatrix.nodeTask Scenario.calm tt ("master-0", "master")%string "22" "68" [] =
  ([] ++ EvDebugNew "master-0"
      :: map (EvDebugExec "master-0") (commatrix.firewallCommands "22" "68")
      ++ [EvDebugClean "master-0"],
   Ok tt).
Proof.
  apply (nodeTask_success Scenario.calm tt ("master-0", "master")%string
           "22" "68" "master-0"%string []).
  - reflexivity.
  - intros command _. exists ""%string. reflexivity.
  - discriminate.
Defined.

Lemma applyToNodes_only_role_witness :
  exists evs,
    fst (commatrix.applyToNodes Scenario.rough tt "master" "22" "68" []) =
      [] ++ EvNodesList :: evs /\
    forall ev, In ev evs ->
      exists node,
        In node Scenario.three_nodes /\
        commatrix.GetRole Scenario.rough node = "master"%string /\
        commatrix.event_node ev = Some (commatrix.Node_Name Scenario.rough node).
Proof.
  apply (applyToNodes_only_role Scenario.rough tt "master" "22" "68"
           Scenario.three_nodes []).
  reflexivity.
Defined.

Lemma applyToNodes_every_role_node_witness :
  (forall msg,
      snd (commatrix.applyToNodes Scenario.rough tt "master" "22" "68" [])
      <> Panic msg) /\
  forall node,
    In node Scenario.three_nodes ->
    commatrix.GetRole Scenario.rough node = "master"%string ->
    In (EvDebugNew (commatrix.Node_Name Scenario.rough node))
       (fst (commatrix.applyToNodes Scenario.rough tt "master" "22" "68" [])).
Proof.
  apply (applyToNodes_every_role_node Scenario.rough tt "master" "22" "68"
           Scenario.three_nodes []).
  - reflexivity.
  - discriminate.
  - intros pod command msg. unfold Scenario.rough, Scenario.fleet, Scenario.stubborn.
    cbn [commatrix.DebugPod_Exec].
    destruct (_ && _); discriminate.
  - discriminate.
Defined.

(** On the cluster [Scenario.rough] the first master refuses the first
    command: the run goes on to the second master, leaves the worker
    alone, and answers the error of the first. *)
Lemma ApplyFireWallRules_rough_run :
  commatrix.ApplyFireWallRules Scenario.rough tt Scenario.masters "master" [] =
  ([EvNodesList;
    EvDebugNew "master-0";
    EvDebugExec "master-0" "sudo nft add chain ip filter FIREWALL";
    EvDebugClean "master-0";
    EvDebugNew "master-1"]
     ++ map (EvDebugExec "master-1") (commatrix.firewallCommands "22" "68")
     ++ [EvDebugClean "master-1"],
   Err "exit status 1").
Proof. reflexivity. Qed.

Lemma ApplyFireWallRules_no_node_witness :
  commatrix.ApplyFireWallRules Scenario.blind tt Scenario.masters "master" [] =
  ([] ++ [EvNodesList], Panic "nodes is forbidden").
Proof.
  assert (commatrix.portsOf "TCP" Scenario.masters "master" <> []) as Htcp
      by (vm_compute; discriminate).
  assert (commatrix.portsOf "UDP" Scenario.masters "master" <> []) as Hudp
      by (vm_compute; discriminate).
  exact (proj1 (ApplyFireWallRules_no_node Scenario.blind tt Scenario.masters
                  "master" [] Htcp Hudp)
               "nodes is forbidden"%string eq_refl).
Defined.

(** ** The two versions of the diff *)

Section DiffText.

Import cmd.

Variable CSVHeaders : string.
Variable ComDetails_String : ComDetails -> string.

Lemma render_cons (en : Mark * ComDetails) (l : list (Mark * ComDetails)) :
  render ComDetails_String (en :: l) =
  (line ComDetails_String (fst en) (snd en) ++ render ComDetails_String l)%string.
Proof. reflexivity. Qed.

Lemma render_declared_text (mat2 : ComMatrix) (l : list ComDetails) :
  render ComDetails_String
         (map (fun cd => (if Contains mat2 cd then Unmarked else Plus, cd)) l) =
  fold_right
    (fun cd text =>
       if Contains mat2 cd
       then (ComDetails_String cd ++ String "010" "" ++ text)%string
       else ("+ " ++ ComDetails_String cd ++ String "010" "" ++ text)%string)
    ""%string l.
Proof.
  induction l as [|cd l IH]; trivial.
  cbn [map fold_right]. rewrite render_cons, IH. cbn [fst snd].
  destruct (Contains mat2 cd); unfold line, nl;
    now rewrite ?append_assoc.
Qed.

Lemma render_observed_text (l : list ComDetails) :
  render ComDetails_String (map (fun cd => (Minus, cd)) l) =
  fold_right
    (fun cd text => ("- " ++ ComDetails_String cd ++ String "010" "" ++ text)%string)
    ""%string l.
Proof.
  induction l as [|cd l IH]; trivial.
  cbn [map fold_right]. rewrite render_cons, IH. cbn [fst snd].
  unfold line, nl. now rewrite ?append_assoc.
Qed.

(** X22. The text that [buildMatrixDiff] returns is the header and a line
    feed; then, for every record of [mat1] in order, its rendering and a
    line feed, preceded by "+ " when [mat2] does not contain the record;
    then, for every record of [mat2] in order whose service is not
    "rpc.statd" and that [mat1] does not contain, "- ", its rendering and
    a line feed; and nothing else. *)
Theorem buildMatrixDiff_text (mat1 mat2 : ComMatrix) :
  buildMatrixDiff CSVHeaders ComDetails_String mat1 mat2 =
  (CSVHeaders ++ String "010" ""
   ++ fold_right
        (fun cd text =>
           if Contains mat2 cd
           then ComDetails_String cd ++ String "010" "" ++ text
           else "+ " ++ ComDetails_String cd ++ String "010" "" ++ text)
        "" (Matrix mat1)
   ++ fold_right
        (fun cd text => "- " ++ ComDetails_String cd ++ String "010" "" ++ text)
        ""
        (filter (fun cd => negb (String.eqb (Service cd) "rpc.statd")
                           && negb (Contains mat1 cd))
                (Matrix mat2)))%string.
Proof.
  rewrite buildMatrixDiff_render, diffEntries_spec, render_app.
  unfold spec_declared_lines, spec_observed_lines.
  rewrite render_declared_text, render_observed_text.
  reflexivity.
Qed.

End DiffText.


